(** * Product-Photo-Fusion: request assembly, response unpacking and UI state

    A shallow embedding of [src/services/geminiService.ts] and of the state
    handling of [src/App.tsx].

    - [Js]: the pieces of the JavaScript language the two files rely on
      (UTF-16 strings, [trim], [split], [includes], truthiness, completions).
    - [Json]: [JSON.parse] and the values it builds.
    - [GeminiService]: [fileToBase64], [generatePromptSuggestions] and
      [generateFusedImage], run against a [World] that supplies the
      environment, the file reader and the remote service, and logging every
      file read and every network dispatch.
    - [App]: the component state of [App], its suggestion effect,
      [handleGenerate] and [handleReset] as a step function over UI events
      and promise settlements.
    - [ImageUploader], [View]: the two handlers of the uploader, and the
      conditions under which [App] renders the button and the result
      panel. *)

From Stdlib Require Import NArith ZArith String Ascii List Bool Lia.
Import ListNotations.

Set Warnings "-register-all".

(* ================================================================== *)
(** ** JavaScript strings and completions *)
(* ================================================================== *)

Module Js.

Local Open Scope N_scope.

(** A JavaScript string is a sequence of UTF-16 code units. *)
Definition code_unit := N.
Definition js_string := list code_unit.

(** An ASCII string literal of the source, as code units. *)
Definition lit (s : string) : js_string :=
  map N_of_ascii (list_ascii_of_string s).

Definition quote : code_unit := 34.
Definition LF : code_unit := 10.
Definition comma : code_unit := 44.

Fixpoint str_eqb (a b : js_string) : bool :=
  match a, b with
  | [], [] => true
  | x :: a', y :: b' => (x =? y) && str_eqb a' b'
  | _, _ => false
  end.

(** [ToBoolean] on a string: only the empty string is falsy. *)
Definition truthy_string (s : js_string) : bool :=
  match s with [] => false | _ :: _ => true end.

(** [ToBoolean] on [string | undefined]. *)
Definition truthy_opt_string (s : option js_string) : bool :=
  match s with Some s' => truthy_string s' | None => false end.

(** [ToString] on [string | undefined], as a template literal and
    [JSON.parse] apply it. *)
Definition ToString (s : option js_string) : js_string :=
  match s with Some s' => s' | None => lit "undefined" end.

(** ECMAScript WhiteSpace: TAB, VT, FF, ZWNBSP and the Space_Separator
    category. *)
Definition is_white_space (c : code_unit) : bool :=
  (c =? 0x09) || (c =? 0x0B) || (c =? 0x0C) || (c =? 0x20) || (c =? 0xA0)
  || (c =? 0x1680) || ((0x2000 <=? c) && (c <=? 0x200A))
  || (c =? 0x202F) || (c =? 0x205F) || (c =? 0x3000) || (c =? 0xFEFF).

(** ECMAScript LineTerminator: LF, CR, LS, PS. *)
Definition is_line_terminator (c : code_unit) : bool :=
  (c =? 0x0A) || (c =? 0x0D) || (c =? 0x2028) || (c =? 0x2029).

Definition is_trimmed (c : code_unit) : bool :=
  is_white_space c || is_line_terminator c.

Fixpoint trimStart (s : js_string) : js_string :=
  match s with
  | [] => []
  | c :: r => if is_trimmed c then trimStart r else s
  end.

Definition trimEnd (s : js_string) : js_string := rev (trimStart (rev s)).

(** [String.prototype.trim]. *)
Definition trim (s : js_string) : js_string := trimEnd (trimStart s).

(** [s.split(sep)] for a one-code-unit separator and no limit. *)
Fixpoint split (sep : code_unit) (s : js_string) : list js_string :=
  match s with
  | [] => [[]]
  | c :: r =>
      if c =? sep then [] :: split sep r
      else match split sep r with
           | h :: t => (c :: h) :: t
           | [] => [[c]]
           end
  end.

Fixpoint startsWith (s p : js_string) : bool :=
  match p, s with
  | [], _ => true
  | x :: p', y :: s' => (x =? y) && startsWith s' p'
  | _ :: _, [] => false
  end.

(** [s.includes(p)]. *)
Fixpoint includes (s p : js_string) : bool :=
  startsWith s p ||
  match s with
  | [] => false
  | _ :: r => includes r p
  end.

(** What a [throw] or a rejected promise carries: an Error object with its
    [name] and [message] ([new Error(message)], an error the SDK rejects
    with, a SyntaxError or TypeError raised by the engine), or the event a
    FileReader hands to [onerror], which is not an Error instance. *)
Inductive ErrorName := Error | SyntaxError | TypeError.

Inductive JsThrown :=
| ErrorObject (name : ErrorName) (message : js_string)
| ErrorEvent.

(** The outcome of evaluating an expression or of awaiting a promise. *)
Inductive Completion (A : Type) :=
| Normal (a : A)
| Throw (e : JsThrown).
Arguments Normal {A} a.
Arguments Throw {A} e.

End Js.

(* ================================================================== *)
(** ** JSON.parse *)
(* ================================================================== *)

Module Json.
Import Js.
Local Open Scope N_scope.

(** A JSON number before its conversion to a double: the digits of the
    integer and fraction parts read as one natural number, scaled by a
    power of ten. *)
Record NumberLiteral := {
  negative : bool;
  mantissa : N;
  exponent10 : Z
}.

Inductive JsValue :=
| JNull
| JBool (b : bool)
| JNumber (n : NumberLiteral)
| JString (s : js_string)
| JArray (elements : list JsValue)
| JObject (members : list (js_string * JsValue)).

(** Does the literal denote a double equal to +0 or -0?  Under
    round-to-nearest-even a positive real becomes 0 exactly when it is at
    most 2^-1075, half of the least positive double. *)
Definition is_zero (n : NumberLiteral) : bool :=
  if mantissa n =? 0 then true
  else if (0 <=? exponent10 n)%Z then false
  else (Z.of_N (mantissa n) * 2 ^ 1075 <=? 10 ^ (- exponent10 n))%Z.

(** [ToBoolean] on a parsed value. *)
Definition ToBoolean (v : JsValue) : bool :=
  match v with
  | JNull => false
  | JBool b => b
  | JNumber n => negb (is_zero n)
  | JString s => truthy_string s
  | JArray _ => true
  | JObject _ => true
  end.

(** The own property [name] of an object built by [JSON.parse]: members
    are defined in source order, so the last duplicate wins. *)
Definition own_property (name : js_string) (members : list (js_string * JsValue))
  : option JsValue :=
  fold_left (fun found m => if str_eqb (fst m) name then Some (snd m) else found)
            members None.

(** Result of a parsing function: a value with the unread input, a syntax
    error, or recursion budget exhausted. *)
Inductive Parsed (A : Type) :=
| Ok (a : A) (rest : js_string)
| Bad
| OutOfFuel.
Arguments Ok {A} a rest.
Arguments Bad {A}.
Arguments OutOfFuel {A}.

Definition is_json_ws (c : code_unit) : bool :=
  (c =? 0x20) || (c =? 0x09) || (c =? 0x0A) || (c =? 0x0D).

Fixpoint skip_ws (s : js_string) : js_string :=
  match s with
  | [] => []
  | c :: r => if is_json_ws c then skip_ws r else s
  end.

Definition is_digit (c : code_unit) : bool := (48 <=? c) && (c <=? 57).

(** The longest prefix of decimal digits, and what follows it. *)
Fixpoint take_digits (s : js_string) : js_string * js_string :=
  match s with
  | [] => ([], [])
  | c :: r =>
      if is_digit c then let (ds, rest) := take_digits r in (c :: ds, rest)
      else ([], s)
  end.

Definition digits_value (ds : js_string) : N :=
  fold_left (fun acc c => 10 * acc + (c - 48)) ds 0.

Definition hex_value (c : code_unit) : option N :=
  if is_digit c then Some (c - 48)
  else if (97 <=? c) && (c <=? 102) then Some (c - 87)
  else if (65 <=? c) && (c <=? 70) then Some (c - 55)
  else None.

Definition hex4 (a b c d : code_unit) : option code_unit :=
  match hex_value a, hex_value b, hex_value c, hex_value d with
  | Some x, Some y, Some z, Some w => Some (((x * 16 + y) * 16 + z) * 16 + w)
  | _, _, _, _ => None
  end.

(** The code unit denoted by a one-letter escape. *)
Definition simple_escape (e : code_unit) : option code_unit :=
  if e =? 34 then Some 34          (* quotation mark *)
  else if e =? 92 then Some 92     (* reverse solidus *)
  else if e =? 47 then Some 47     (* solidus *)
  else if e =? 98 then Some 8      (* b: backspace *)
  else if e =? 102 then Some 12    (* f: form feed *)
  else if e =? 110 then Some 10    (* n: line feed *)
  else if e =? 114 then Some 13    (* r: carriage return *)
  else if e =? 116 then Some 9     (* t: tab *)
  else None.

(** The characters of a string after its opening quote, up to and
    including the closing quote. *)
Fixpoint parse_string_chars (s : js_string) : Parsed js_string :=
  match s with
  | [] => Bad
  | c :: r =>
      if c =? 34 then Ok [] r
      else if c =? 92 then
        match r with
        | [] => Bad
        | e :: r1 =>
            if e =? 117 then
              match r1 with
              | h1 :: h2 :: h3 :: h4 :: r2 =>
                  match hex4 h1 h2 h3 h4 with
                  | Some u =>
                      match parse_string_chars r2 with
                      | Ok str rest => Ok (u :: str) rest
                      | other => other
                      end
                  | None => Bad
                  end
              | _ => Bad
              end
            else
              match simple_escape e with
              | Some u =>
                  match parse_string_chars r1 with
                  | Ok str rest => Ok (u :: str) rest
                  | other => other
                  end
              | None => Bad
              end
        end
      else if c <? 32 then Bad
      else
        match parse_string_chars r with
        | Ok str rest => Ok (c :: str) rest
        | other => other
        end
  end.

(** An optional fraction: a dot followed by at least one digit. *)
Definition parse_fraction (s : js_string) : option (js_string * js_string) :=
  match s with
  | c :: r =>
      if c =? 46 then
        match take_digits r with
        | ([], _) => None
        | (ds, rest) => Some (ds, rest)
        end
      else Some ([], s)
  | [] => Some ([], s)
  end.

(** An optional exponent: e or E, an optional sign, at least one digit. *)
Definition parse_exponent (s : js_string) : option (Z * js_string) :=
  match s with
  | c :: r =>
      if (c =? 101) || (c =? 69) then
        let (sign, r1) :=
          match r with
          | c1 :: r' =>
              if c1 =? 43 then (1%Z, r')
              else if c1 =? 45 then ((-1)%Z, r')
              else (1%Z, r)
          | [] => (1%Z, r)
          end in
        match take_digits r1 with
        | ([], _) => None
        | (ds, rest) => Some ((sign * Z.of_N (digits_value ds))%Z, rest)
        end
      else Some (0%Z, s)
  | [] => Some (0%Z, s)
  end.

(** A number: an optional minus, an integer part without superfluous
    leading zero, an optional fraction, an optional exponent. *)
Definition parse_number (s : js_string) : Parsed NumberLiteral :=
  let (neg, s1) :=
    match s with
    | c :: r => if c =? 45 then (true, r) else (false, s)
    | [] => (false, s)
    end in
  match s1 with
  | [] => Bad
  | c :: r1 =>
      if is_digit c then
        let (int_digits, s2) :=
          if c =? 48 then ([c], r1) else take_digits s1 in
        match parse_fraction s2 with
        | None => Bad
        | Some (frac_digits, s3) =>
            match parse_exponent s3 with
            | None => Bad
            | Some (e, s4) =>
                Ok {| negative := neg;
                      mantissa := digits_value (int_digits ++ frac_digits);
                      exponent10 := (e - Z.of_nat (length frac_digits))%Z |}
                   s4
            end
        end
      else Bad
  end.

(** A value starting at the first code unit of [s]; the elements of an
    array after its opening bracket; the members of an object after its
    opening brace.  Each nesting level and each element spends one unit of
    [fuel]. *)
Fixpoint parse_value (fuel : nat) (s : js_string) {struct fuel} : Parsed JsValue :=
  match fuel with
  | O => OutOfFuel
  | S fuel' =>
      match s with
      | [] => Bad
      | c :: r =>
          if c =? 123 then
            match skip_ws r with
            | c' :: r' =>
                if c' =? 125 then Ok (JObject []) r'
                else
                  match parse_members fuel' (c' :: r') with
                  | Ok ms rest => Ok (JObject ms) rest
                  | Bad => Bad
                  | OutOfFuel => OutOfFuel
                  end
            | [] => Bad
            end
          else if c =? 91 then
            match skip_ws r with
            | c' :: r' =>
                if c' =? 93 then Ok (JArray []) r'
                else
                  match parse_elements fuel' (c' :: r') with
                  | Ok vs rest => Ok (JArray vs) rest
                  | Bad => Bad
                  | OutOfFuel => OutOfFuel
                  end
            | [] => Bad
            end
          else if c =? 34 then
            match parse_string_chars r with
            | Ok str rest => Ok (JString str) rest
            | Bad => Bad
            | OutOfFuel => OutOfFuel
            end
          else if startsWith s (lit "true") then Ok (JBool true) (skipn 4 s)
          else if startsWith s (lit "false") then Ok (JBool false) (skipn 5 s)
          else if startsWith s (lit "null") then Ok JNull (skipn 4 s)
          else
            match parse_number s with
            | Ok n rest => Ok (JNumber n) rest
            | Bad => Bad
            | OutOfFuel => OutOfFuel
            end
      end
  end

with parse_elements (fuel : nat) (s : js_string) {struct fuel}
  : Parsed (list JsValue) :=
  match fuel with
  | O => OutOfFuel
  | S fuel' =>
      match parse_value fuel' s with
      | Ok v r =>
          match skip_ws r with
          | c :: r' =>
              if c =? 44 then
                match parse_elements fuel' (skip_ws r') with
                | Ok vs rest => Ok (v :: vs) rest
                | other => other
                end
              else if c =? 93 then Ok [v] r'
              else Bad
          | [] => Bad
          end
      | Bad => Bad
      | OutOfFuel => OutOfFuel
      end
  end

with parse_members (fuel : nat) (s : js_string) {struct fuel}
  : Parsed (list (js_string * JsValue)) :=
  match fuel with
  | O => OutOfFuel
  | S fuel' =>
      match s with
      | [] => Bad
      | q :: r =>
          if q =? 34 then
            match parse_string_chars r with
            | Ok key r1 =>
                match skip_ws r1 with
                | c1 :: r2 =>
                    if c1 =? 58 then
                      match parse_value fuel' (skip_ws r2) with
                      | Ok v r3 =>
                          match skip_ws r3 with
                          | c2 :: r4 =>
                              if c2 =? 44 then
                                match parse_members fuel' (skip_ws r4) with
                                | Ok ms rest => Ok ((key, v) :: ms) rest
                                | other => other
                                end
                              else if c2 =? 125 then Ok [(key, v)] r4
                              else Bad
                          | [] => Bad
                          end
                      | Bad => Bad
                      | OutOfFuel => OutOfFuel
                      end
                    else Bad
                | [] => Bad
                end
            | Bad => Bad
            | OutOfFuel => OutOfFuel
            end
          else Bad
      end
  end.

(** A whole JSON text: one value between optional white space.  The budget
    is enough for every input (see [parse_text_fuel]). *)
Definition parse_text (s : js_string) : Parsed JsValue :=
  match parse_value (2 * length s + 1) (skip_ws s) with
  | Ok v r =>
      match skip_ws r with
      | [] => Ok v []
      | _ :: _ => Bad
      end
  | Bad => Bad
  | OutOfFuel => OutOfFuel
  end.

End Json.

(* ================================================================== *)
(** ** services/geminiService.ts *)
(* ================================================================== *)

Module GeminiService.
Import Js Json.

(** A browser [File]: what the code reads of it is its media [type]; its
    content is reached through the file reader of the [World]. *)
Record File := {
  name : js_string;
  type : js_string
}.

(** The string enums [BlockedReason] and [FinishReason] of the SDK
    (@google/genai, a dependency outside the repository).  The value of
    every member is its own name, so every member is a non-empty string. *)
Module BlockedReason.
Inductive t :=
| BLOCKED_REASON_UNSPECIFIED | SAFETY | OTHER | BLOCKLIST
| PROHIBITED_CONTENT | IMAGE_SAFETY.

Definition value (r : t) : js_string :=
  match r with
  | BLOCKED_REASON_UNSPECIFIED => lit "BLOCKED_REASON_UNSPECIFIED"
  | SAFETY => lit "SAFETY"
  | OTHER => lit "OTHER"
  | BLOCKLIST => lit "BLOCKLIST"
  | PROHIBITED_CONTENT => lit "PROHIBITED_CONTENT"
  | IMAGE_SAFETY => lit "IMAGE_SAFETY"
  end.
End BlockedReason.

Module FinishReason.
Inductive t :=
| FINISH_REASON_UNSPECIFIED | STOP | MAX_TOKENS | SAFETY | RECITATION
| LANGUAGE | OTHER | BLOCKLIST | PROHIBITED_CONTENT | SPII
| MALFORMED_FUNCTION_CALL | IMAGE_SAFETY | UNEXPECTED_TOOL_CALL.

Definition value (r : t) : js_string :=
  match r with
  | FINISH_REASON_UNSPECIFIED => lit "FINISH_REASON_UNSPECIFIED"
  | STOP => lit "STOP"
  | MAX_TOKENS => lit "MAX_TOKENS"
  | SAFETY => lit "SAFETY"
  | RECITATION => lit "RECITATION"
  | LANGUAGE => lit "LANGUAGE"
  | OTHER => lit "OTHER"
  | BLOCKLIST => lit "BLOCKLIST"
  | PROHIBITED_CONTENT => lit "PROHIBITED_CONTENT"
  | SPII => lit "SPII"
  | MALFORMED_FUNCTION_CALL => lit "MALFORMED_FUNCTION_CALL"
  | IMAGE_SAFETY => lit "IMAGE_SAFETY"
  | UNEXPECTED_TOOL_CALL => lit "UNEXPECTED_TOOL_CALL"
  end.
End FinishReason.

(** Parts, contents and responses, with every optional field of the SDK's
    declarations as an [option] ([None] is [undefined]). *)
Record Blob := {
  data : option js_string;
  mimeType : option js_string
}.

Record Part := {
  inlineData : option Blob;
  text : option js_string
}.

Record Content := {
  parts : option (list Part)
}.

Record Candidate := {
  content : option Content;
  finishReason : option FinishReason.t
}.

Record PromptFeedback := {
  blockReason : option BlockedReason.t
}.

(** [response_text] is what the SDK's [text] accessor yields. *)
Record GenerateContentResponse := {
  promptFeedback : option PromptFeedback;
  candidates : option (list Candidate);
  response_text : option js_string
}.

Inductive Schema :=
| OBJECT (properties : list (js_string * Schema)) (required : list js_string)
| ARRAY (items : Schema)
| STRING.

Inductive Modality := IMAGE | TEXT.

Record GenerateContentConfig := {
  responseMimeType : option js_string;
  responseSchema : option Schema;
  responseModalities : option (list Modality)
}.

Record GenerateContentParameters := {
  model : js_string;
  contents : Content;
  config : GenerateContentConfig
}.

(** Everything outside the two functions: the environment variable, the
    outcome of [FileReader.readAsDataURL] on a file (the [result] at
    [onload], or the event of [onerror]), the remote service behind
    [ai.models.generateContent], and the message texts the engine puts in
    the errors it raises itself. *)
Record World := {
  API_KEY : option js_string;
  readAsDataURL : File -> Completion js_string;
  generateContent : GenerateContentParameters -> Completion GenerateContentResponse;
  syntaxErrorMessage : js_string -> js_string;
  typeErrorMessage : js_string
}.

(** What an observer outside the function can see it do. *)
Inductive Event :=
| FileRead (f : File)
| NetworkDispatch (params : GenerateContentParameters).

(** An asynchronous computation: it extends the log of events and either
    completes normally or rejects; a rejection skips what follows. *)
Definition M (A : Type) : Type := list Event -> Completion A * list Event.

Definition ret {A} (a : A) : M A := fun log => (Normal a, log).

Definition throw {A} (e : JsThrown) : M A := fun log => (Throw e, log).

Definition bind {A B} (m : M A) (k : A -> M B) : M B :=
  fun log =>
    match m log with
    | (Normal a, log') => k a log'
    | (Throw e, log') => (Throw e, log')
    end.

Definition lift {A} (c : Completion A) : M A := fun log => (c, log).

Definition emit {A} (ev : Event) (c : Completion A) : M A :=
  fun log => (c, log ++ [ev]).

Notation "x <- m ;; k" := (bind m (fun x => k))
  (at level 61, m at next level, right associativity).

Definition run {A} (m : M A) : Completion A * list Event := m [].

Section Service.

Variable w : World.

(** [JSON.parse(text)] without reviver.  The recursion budget of
    [parse_text] always suffices (see [parse_text_fuel]). *)
Definition JSON_parse (text : js_string) : Completion JsValue :=
  match parse_text text with
  | Ok v _ => Normal v
  | _ => Throw (ErrorObject SyntaxError (syntaxErrorMessage w text))
  end.

(** [jsonResponse.suggestions]: the own property of an object; nothing on
    primitives, strings and arrays, whose prototypes define no such name;
    a TypeError on [null]. *)
Definition get_suggestions (jsonResponse : JsValue) : Completion (option JsValue) :=
  match jsonResponse with
  | JNull => Throw (ErrorObject TypeError (typeErrorMessage w))
  | JObject members => Normal (own_property (lit "suggestions") members)
  | _ => Normal None
  end.

(** [x || alt]. *)
Definition or_else (x : option JsValue) (alt : JsValue) : JsValue :=
  match x with
  | Some v => if ToBoolean v then v else alt
  | None => alt
  end.

Definition fileToBase64 (file : File) : M (option js_string) :=
  match readAsDataURL w file with
  | Normal result => emit (FileRead file) (Normal (nth_error (split comma result) 1))
  | Throw error => emit (FileRead file) (Throw error)
  end.

Definition models_generateContent (params : GenerateContentParameters)
  : M GenerateContentResponse :=
  emit (NetworkDispatch params) (generateContent w params).

Definition inline_part (base64 : option js_string) (mime : js_string) : Part :=
  {| inlineData := Some {| data := base64; mimeType := Some mime |};
     text := None |}.

Definition text_part (t : js_string) : Part :=
  {| inlineData := None; text := Some t |}.

Definition API_KEY_error : JsThrown :=
  ErrorObject Error (lit "API_KEY environment variable not set").

Definition suggestions_prompt : js_string :=
  lit "Analyze the following two images. Image 1 contains a character, and Image 2 contains a product. Based on your analysis, generate exactly 4 short, creative, and actionable prompt suggestions for how to combine them. The suggestions should be phrased as commands (e.g., " ++ [quote] ++ lit "Make the character wear the [product]" ++ [quote] ++ lit "). Return the suggestions as a JSON object with a single key " ++ [quote] ++ lit "suggestions" ++ [quote] ++ lit " containing an array of strings.".

Definition suggestions_request (characterImageFile productImageFile : File)
    (characterBase64 productBase64 : option js_string) : GenerateContentParameters :=
  {| model := lit "gemini-2.5-flash";
     contents :=
       {| parts := Some [ inline_part characterBase64 (type characterImageFile);
                          inline_part productBase64 (type productImageFile);
                          text_part suggestions_prompt ] |};
     config :=
       {| responseMimeType := Some (lit "application/json");
          responseSchema :=
            Some (OBJECT [(lit "suggestions", ARRAY STRING)] [lit "suggestions"]);
          responseModalities := None |} |}.

Definition generatePromptSuggestions (characterImageFile productImageFile : File)
  : M JsValue :=
  if negb (truthy_opt_string (API_KEY w)) then throw API_KEY_error
  else
    characterBase64 <- fileToBase64 characterImageFile ;;
    productBase64 <- fileToBase64 productImageFile ;;
    response <- models_generateContent
                  (suggestions_request characterImageFile productImageFile
                                       characterBase64 productBase64) ;;
    jsonResponse <- lift (JSON_parse (ToString (response_text response))) ;;
    suggestions <- lift (get_suggestions jsonResponse) ;;
    ret (or_else suggestions (JArray [])).

Definition defaultInstruction : js_string :=
  lit "Make the character from the first image interact with or use the product from the second image.".

Definition userInstruction (userPrompt : js_string) : js_string :=
  if truthy_string userPrompt && negb (str_eqb (trim userPrompt) [])
  then userPrompt else defaultInstruction.

(** The template of the fusion prompt, before and after the goal. *)
Definition prompt_head : js_string :=
  lit "You are an expert image editor. Your task is to realistically merge a product into a character's image." ++ [LF]
  ++ [LF]
  ++ lit "**Goal:** ".

Definition prompt_tail : js_string :=
  [LF]
  ++ [LF]
  ++ lit "**Image 1 (Character Image):** This is the main subject and the base for the final image." ++ [LF]
  ++ lit "**Image 2 (Product Image):** This contains the product to be integrated with the character." ++ [LF]
  ++ [LF]
  ++ lit "**Strict Rules:**" ++ [LF]
  ++ lit "1.  **Combine:** Generate a new image where the character from Image 1 is interacting with or wearing the product from Image 2, as described in the goal." ++ [LF]
  ++ lit "2.  **Full Product Integration:** The *entire* product from Image 2 must be realistically integrated. **Do not just copy a logo, graphic, or texture from the product.** For example, if the goal is for the character to wear a t-shirt from Image 2, the final image must show the character wearing the *complete t-shirt* (including its color, shape, and fabric), not just the graphic from the t-shirt pasted onto their original clothing." ++ [LF]
  ++ lit "3.  **High-Fidelity Detail Transfer:** All visual details from the product in Image 2 must be transferred. This includes all graphics, logos, text, patterns, and textures. Ensure the final representation is a faithful and complete reproduction of the product's design." ++ [LF]
  ++ lit "4.  **Preserve Style:** The final image's artistic style, lighting, and overall aesthetic MUST exactly match the Character Image (Image 1)." ++ [LF]
  ++ lit "5.  **Preserve Dimensions:** The final image MUST have the same dimensions and aspect ratio as the Character Image (Image 1)." ++ [LF]
  ++ lit "6.  **No Additions:** Do not add any new elements, characters, or complex backgrounds. Only modify what is necessary to combine the character and product naturally." ++ [LF].

Definition fusion_prompt (userPrompt : js_string) : js_string :=
  prompt_head ++ userInstruction userPrompt ++ prompt_tail.

Definition fusion_request (characterImageFile productImageFile : File)
    (characterBase64 productBase64 : option js_string) (userPrompt : js_string)
  : GenerateContentParameters :=
  {| model := lit "gemini-2.5-flash-image";
     contents :=
       {| parts := Some [ inline_part characterBase64 (type characterImageFile);
                          inline_part productBase64 (type productImageFile);
                          text_part (fusion_prompt userPrompt) ] |};
     config :=
       {| responseMimeType := None;
          responseSchema := None;
          responseModalities := Some [IMAGE; TEXT] |} |}.

(** [response.candidates?.[0]]. *)
Definition first_candidate (response : GenerateContentResponse) : option Candidate :=
  match candidates response with
  | Some cs => nth_error cs 0
  | None => None
  end.

(** [response.promptFeedback?.blockReason || response.candidates?.[0]?.finishReason === 'SAFETY']. *)
Definition is_blocked (response : GenerateContentResponse) : bool :=
  match promptFeedback response with
  | Some pf =>
      match blockReason pf with
      | Some r => truthy_string (BlockedReason.value r)
      | None => false
      end
  | None => false
  end
  ||
  match first_candidate response with
  | Some c =>
      match finishReason c with
      | Some r => str_eqb (FinishReason.value r) (lit "SAFETY")
      | None => false
      end
  | None => false
  end.

(** [response.candidates?.[0]?.content?.parts ?? []]. *)
Definition response_parts (response : GenerateContentResponse) : list Part :=
  match first_candidate response with
  | Some c =>
      match content c with
      | Some ct =>
          match parts ct with
          | Some ps => ps
          | None => []
          end
      | None => []
      end
  | None => []
  end.

Definition data_url (b : Blob) : js_string :=
  lit "data:" ++ ToString (mimeType b) ++ lit ";base64," ++ ToString (data b).

(** The [for ... of] loop: [Some url] when an iteration returns, [None]
    when the loop runs to its end. *)
Fixpoint scan_parts (ps : list Part) : option js_string :=
  match ps with
  | [] => None
  | part :: rest =>
      match inlineData part with
      | Some b => Some (data_url b)
      | None => scan_parts rest
      end
  end.

Definition SAFETY_error : JsThrown :=
  ErrorObject Error (lit "SAFETY_POLICY_VIOLATION").

Definition no_image_error : JsThrown :=
  ErrorObject Error (lit "No image was generated. The model may have refused the prompt.").

Definition generateFusedImage (characterImageFile productImageFile : File)
    (userPrompt : js_string) : M js_string :=
  if negb (truthy_opt_string (API_KEY w)) then throw API_KEY_error
  else
    characterBase64 <- fileToBase64 characterImageFile ;;
    productBase64 <- fileToBase64 productImageFile ;;
    response <- models_generateContent
                  (fusion_request characterImageFile productImageFile
                                  characterBase64 productBase64 userPrompt) ;;
    if is_blocked response then throw SAFETY_error
    else
      match scan_parts (response_parts response) with
      | Some url => ret url
      | None => throw no_image_error
      end.

End Service.

End GeminiService.

(* ================================================================== *)
(** ** App.tsx *)
(* ================================================================== *)

Module App.
Import Js Json GeminiService.

(** Modelled from the spec: the declaration of [ImageFile] (types.ts) is
    not among the sources.  The spec's UploadedImage is a file with its
    locally created preview reference; the uploader builds and the
    component reads exactly the fields [file] and [previewUrl]. *)
Record ImageFile := {
  file : File;
  previewUrl : js_string
}.

Record ErrorState := {
  title : js_string;
  message : js_string
}.

(** A call of one of the two service functions, with the arguments the
    call expression passes. *)
Inductive ServiceCall :=
| SuggestionsCall (characterImageFile productImageFile : File)
| FusedImageCall (characterImageFile productImageFile : File)
                 (prompt outputAspectRatio : js_string).

(** The call expression of [handleGenerate] applies four arguments to a
    function of three parameters: the fourth is evaluated and bound to
    nothing. *)
Definition invoke_generateFusedImage (w : World)
    (characterImageFile productImageFile : File)
    (prompt outputAspectRatio : js_string) : M js_string :=
  generateFusedImage w characterImageFile productImageFile prompt.

(** The component state that the suggestion effect, [handleGenerate] and
    [handleReset] read and write (the modal flag and the download options
    are left out), with the promises of the service calls: [calls] lists
    every call made, oldest first, and [settled] the positions in [calls]
    whose promise has settled. *)
Record State := {
  characterImage : option ImageFile;
  productImage : option ImageFile;
  prompt : js_string;
  generatedImage : option js_string;
  isLoading : bool;
  error : option ErrorState;
  dynamicSuggestions : JsValue;
  isSuggestionsLoading : bool;
  outputAspectRatio : js_string;
  calls : list ServiceCall;
  settled : list nat
}.

Definition initial : State :=
  {| characterImage := None; productImage := None; prompt := [];
     generatedImage := None; isLoading := false; error := None;
     dynamicSuggestions := JArray []; isSuggestionsLoading := false;
     outputAspectRatio := lit "original"; calls := []; settled := [] |}.

Definition setCharacterImage (v : option ImageFile) (st : State) : State :=
  {| characterImage := v; productImage := productImage st; prompt := prompt st;
     generatedImage := generatedImage st; isLoading := isLoading st;
     error := error st; dynamicSuggestions := dynamicSuggestions st;
     isSuggestionsLoading := isSuggestionsLoading st;
     outputAspectRatio := outputAspectRatio st; calls := calls st;
     settled := settled st |}.

Definition setProductImage (v : option ImageFile) (st : State) : State :=
  {| characterImage := characterImage st; productImage := v; prompt := prompt st;
     generatedImage := generatedImage st; isLoading := isLoading st;
     error := error st; dynamicSuggestions := dynamicSuggestions st;
     isSuggestionsLoading := isSuggestionsLoading st;
     outputAspectRatio := outputAspectRatio st; calls := calls st;
     settled := settled st |}.

Definition setPrompt (v : js_string) (st : State) : State :=
  {| characterImage := characterImage st; productImage := productImage st;
     prompt := v; generatedImage := generatedImage st; isLoading := isLoading st;
     error := error st; dynamicSuggestions := dynamicSuggestions st;
     isSuggestionsLoading := isSuggestionsLoading st;
     outputAspectRatio := outputAspectRatio st; calls := calls st;
     settled := settled st |}.

Definition setGeneratedImage (v : option js_string) (st : State) : State :=
  {| characterImage := characterImage st; productImage := productImage st;
     prompt := prompt st; generatedImage := v; isLoading := isLoading st;
     error := error st; dynamicSuggestions := dynamicSuggestions st;
     isSuggestionsLoading := isSuggestionsLoading st;
     outputAspectRatio := outputAspectRatio st; calls := calls st;
     settled := settled st |}.

Definition setIsLoading (v : bool) (st : State) : State :=
  {| characterImage := characterImage st; productImage := productImage st;
     prompt := prompt st; generatedImage := generatedImage st; isLoading := v;
     error := error st; dynamicSuggestions := dynamicSuggestions st;
     isSuggestionsLoading := isSuggestionsLoading st;
     outputAspectRatio := outputAspectRatio st; calls := calls st;
     settled := settled st |}.

Definition setError (v : option ErrorState) (st : State) : State :=
  {| characterImage := characterImage st; productImage := productImage st;
     prompt := prompt st; generatedImage := generatedImage st;
     isLoading := isLoading st; error := v;
     dynamicSuggestions := dynamicSuggestions st;
     isSuggestionsLoading := isSuggestionsLoading st;
     outputAspectRatio := outputAspectRatio st; calls := calls st;
     settled := settled st |}.

Definition setDynamicSuggestions (v : JsValue) (st : State) : State :=
  {| characterImage := characterImage st; productImage := productImage st;
     prompt := prompt st; generatedImage := generatedImage st;
     isLoading := isLoading st; error := error st; dynamicSuggestions := v;
     isSuggestionsLoading := isSuggestionsLoading st;
     outputAspectRatio := outputAspectRatio st; calls := calls st;
     settled := settled st |}.

Definition setIsSuggestionsLoading (v : bool) (st : State) : State :=
  {| characterImage := characterImage st; productImage := productImage st;
     prompt := prompt st; generatedImage := generatedImage st;
     isLoading := isLoading st; error := error st;
     dynamicSuggestions := dynamicSuggestions st; isSuggestionsLoading := v;
     outputAspectRatio := outputAspectRatio st; calls := calls st;
     settled := settled st |}.

Definition setOutputAspectRatio (v : js_string) (st : State) : State :=
  {| characterImage := characterImage st; productImage := productImage st;
     prompt := prompt st; generatedImage := generatedImage st;
     isLoading := isLoading st; error := error st;
     dynamicSuggestions := dynamicSuggestions st;
     isSuggestionsLoading := isSuggestionsLoading st;
     outputAspectRatio := v; calls := calls st; settled := settled st |}.

(** Calling a service function: its promise is the next position of [calls]. *)
Definition call (c : ServiceCall) (st : State) : State :=
  {| characterImage := characterImage st; productImage := productImage st;
     prompt := prompt st; generatedImage := generatedImage st;
     isLoading := isLoading st; error := error st;
     dynamicSuggestions := dynamicSuggestions st;
     isSuggestionsLoading := isSuggestionsLoading st;
     outputAspectRatio := outputAspectRatio st; calls := calls st ++ [c];
     settled := settled st |}.

Definition settle (id : nat) (st : State) : State :=
  {| characterImage := characterImage st; productImage := productImage st;
     prompt := prompt st; generatedImage := generatedImage st;
     isLoading := isLoading st; error := error st;
     dynamicSuggestions := dynamicSuggestions st;
     isSuggestionsLoading := isSuggestionsLoading st;
     outputAspectRatio := outputAspectRatio st; calls := calls st;
     settled := id :: settled st |}.

(** The call at position [id], if its promise is still pending. *)
Definition pending (id : nat) (st : State) : option ServiceCall :=
  if existsb (Nat.eqb id) (settled st) then None else nth_error (calls st) id.

(** The effect on [characterImage, productImage], up to its [await]. *)
Definition fetchSuggestions (st : State) : State :=
  match characterImage st, productImage st with
  | Some c, Some p =>
      call (SuggestionsCall (file c) (file p))
           (setDynamicSuggestions (JArray []) (setIsSuggestionsLoading true st))
  | _, _ => st
  end.

(** The effect from its [await] on: the [try] continues or the [catch]
    logs, then the [finally] runs. *)
Definition fetchSuggestions_resume (outcome : Completion JsValue) (st : State)
  : State :=
  setIsSuggestionsLoading false
    match outcome with
    | Normal suggestions => setDynamicSuggestions suggestions st
    | Throw _ => st
    end.

Definition missing_images : ErrorState :=
  {| title := lit "Missing Images";
     message := lit "Please upload both a character and a product image before generating." |}.

Definition policy_violation : ErrorState :=
  {| title := lit "Content Policy Violation";
     message := lit "The request was blocked because the prompt or images may have violated safety policies. Please adjust your inputs and try again." |}.

Definition generation_unsuccessful : ErrorState :=
  {| title := lit "Image Generation Unsuccessful";
     message := lit "The model was unable to generate an image. This can happen if the request is unclear. Please try modifying your instructions or using different images." |}.

Definition something_went_wrong : ErrorState :=
  {| title := lit "Oops! Something Went Wrong";
     message := lit "An unexpected error occurred. Please check your internet connection and try again. If the problem continues, the service might be temporarily unavailable." |}.

(** [handleGenerate], up to its [await]. *)
Definition handleGenerate (st : State) : State :=
  match characterImage st, productImage st with
  | Some c, Some p =>
      call (FusedImageCall (file c) (file p) (prompt st) (outputAspectRatio st))
           (setIsLoading true (setGeneratedImage None (setError None st)))
  | _, _ => setError (Some missing_images) st
  end.

(** [e instanceof Error ? e.message : ...]. *)
Definition errorMessage (e : JsThrown) : js_string :=
  match e with
  | ErrorObject _ m => m
  | ErrorEvent => lit "An unknown error occurred."
  end.

(** [handleGenerate] from its [await] on. *)
Definition handleGenerate_resume (outcome : Completion js_string) (st : State)
  : State :=
  setIsLoading false
    match outcome with
    | Normal result => setGeneratedImage (Some result) st
    | Throw e =>
        if str_eqb (errorMessage e) (lit "SAFETY_POLICY_VIOLATION")
        then setError (Some policy_violation) st
        else if includes (errorMessage e) (lit "No image was generated")
        then setError (Some generation_unsuccessful) st
        else setError (Some something_went_wrong) st
    end.

Definition handleReset (st : State) : State :=
  setOutputAspectRatio (lit "original")
    (setDynamicSuggestions (JArray [])
      (setIsLoading false
        (setError None
          (setPrompt []
            (setGeneratedImage None
              (setProductImage None
                (setCharacterImage None st))))))).

Inductive Slot := CharacterSlot | ProductSlot.

(** What the event loop delivers to the component: user input, and the
    settlement of the promise of a pending service call. *)
Inductive Event :=
| ImageUpload (slot : Slot) (imageFile : ImageFile)
| PromptChange (value : js_string)
| AspectRatioClick (ratio : js_string)
| GenerateClick
| ResetClick
| SuggestionsSettled (id : nat) (outcome : Completion JsValue)
| FusedImageSettled (id : nat) (outcome : Completion js_string).

(** One turn of the event loop.  An upload stores a fresh image object, so
    the effect runs again; after a reset the effect runs with both images
    null and does nothing.  A settlement is possible only for a pending
    call of its kind. *)
Definition step (st : State) (ev : Event) : option State :=
  match ev with
  | ImageUpload CharacterSlot imageFile =>
      Some (fetchSuggestions (setCharacterImage (Some imageFile) st))
  | ImageUpload ProductSlot imageFile =>
      Some (fetchSuggestions (setProductImage (Some imageFile) st))
  | PromptChange value => Some (setPrompt value st)
  | AspectRatioClick ratio => Some (setOutputAspectRatio ratio st)
  | GenerateClick => Some (handleGenerate st)
  | ResetClick => Some (handleReset st)
  | SuggestionsSettled id outcome =>
      match pending id st with
      | Some (SuggestionsCall _ _) =>
          Some (fetchSuggestions_resume outcome (settle id st))
      | _ => None
      end
  | FusedImageSettled id outcome =>
      match pending id st with
      | Some (FusedImageCall _ _ _ _) =>
          Some (handleGenerate_resume outcome (settle id st))
      | _ => None
      end
  end.

Fixpoint steps (st : State) (evs : list Event) : option State :=
  match evs with
  | [] => Some st
  | ev :: rest =>
      match step st ev with
      | Some st' => steps st' rest
      | None => None
      end
  end.

Definition reachable (st : State) : Prop :=
  exists evs, steps initial evs = Some st.

End App.

(* ================================================================== *)
(** ** Vocabulary of the properties, and sample inputs *)
(* ================================================================== *)

Module Properties.
Import Js Json GeminiService App.

(** A response carries no block indicator: no block reason in the prompt
    feedback, and the first candidate, if any, did not finish for SAFETY. *)
Definition no_block_indicators (response : GenerateContentResponse) : Prop :=
  (forall pf, promptFeedback response = Some pf -> blockReason pf = None) /\
  (forall c, first_candidate response = Some c ->
             finishReason c <> Some FinishReason.SAFETY).

(** A response carries a block indicator. *)
Definition block_indicator (response : GenerateContentResponse) : Prop :=
  (exists pf reason,
      promptFeedback response = Some pf /\ blockReason pf = Some reason) \/
  (exists c rest,
      candidates response = Some (c :: rest) /\
      finishReason c = Some FinishReason.SAFETY).

Definition has_inline_data (p : Part) : Prop := inlineData p <> None.

Definition no_inline_data (p : Part) : Prop := inlineData p = None.

(** The world lets a call get as far as a response: the credential is
    configured and both files load. *)
Definition reads_succeed (w : World) (characterImageFile productImageFile : File)
    (characterResult productResult : js_string) : Prop :=
  truthy_opt_string (API_KEY w) = true /\
  readAsDataURL w characterImageFile = Normal characterResult /\
  readAsDataURL w productImageFile = Normal productResult.

(** [reader.result.split(',')[1]]. *)
Definition base64_of (result : js_string) : option js_string :=
  nth_error (split comma result) 1.

End Properties.

Module Samples.
Import Js Json GeminiService App.

Definition hero : File := {| name := lit "hero.png"; type := lit "image/png" |}.
Definition knight : File := {| name := lit "knight.png"; type := lit "image/png" |}.
Definition mug : File := {| name := lit "mug.jpg"; type := lit "image/jpeg" |}.

Definition image (f : File) : ImageFile :=
  {| file := f; previewUrl := lit "blob:" ++ name f |}.

(** A reader under which every file loads; the file name stands in for the
    encoded bytes. *)
Definition loads (f : File) : Completion js_string :=
  Normal (lit "data:" ++ type f ++ lit ";base64," ++ name f).

Definition world (key : option js_string)
    (service : GenerateContentParameters -> Completion GenerateContentResponse)
  : World :=
  {| API_KEY := key;
     readAsDataURL := loads;
     generateContent := service;
     syntaxErrorMessage := fun text => lit "Unexpected token in JSON: " ++ text;
     typeErrorMessage := lit "Cannot read properties of null" |}.

Definition key : option js_string := Some (lit "secret").

Definition answers (r : GenerateContentResponse)
  : GenerateContentParameters -> Completion GenerateContentResponse :=
  fun _ => Normal r.

Definition text_response (body : option js_string) : GenerateContentResponse :=
  {| promptFeedback := None; candidates := None; response_text := body |}.

(** A suggestion service that names the first image of the request in its
    single suggestion. *)
Definition suggesting (params : GenerateContentParameters)
  : Completion GenerateContentResponse :=
  match parts (contents params) with
  | Some ({| inlineData := Some b |} :: _) =>
      Normal (text_response
                (Some (lit "{" ++ [quote] ++ lit "suggestions" ++ [quote]
                       ++ lit ": [" ++ [quote] ++ lit "Give the mug to "
                       ++ ToString (data b) ++ [quote] ++ lit "]}")))
  | _ => Normal (text_response None)
  end.

Definition png : Blob :=
  {| data := Some (lit "iVBORw0KGgo="); mimeType := Some (lit "image/png") |}.

Definition webp : Blob :=
  {| data := Some (lit "UklGRg=="); mimeType := Some (lit "image/webp") |}.

Definition candidate (reason : option FinishReason.t) (ps : option (list Part))
  : Candidate :=
  {| content := Some {| parts := ps |}; finishReason := reason |}.

Definition fusion_response (feedback : option PromptFeedback)
    (cs : option (list Candidate)) : GenerateContentResponse :=
  {| promptFeedback := feedback; candidates := cs; response_text := None |}.

(** Text, then two images, then text. *)
Definition two_images : GenerateContentResponse :=
  fusion_response None
    (Some [candidate (Some FinishReason.STOP)
             (Some [text_part (lit "Here is your image.");
                    {| inlineData := Some png; text := None |};
                    {| inlineData := Some webp; text := None |};
                    text_part (lit "Enjoy!")])]).

(** Blocked by the prompt feedback, with an image all the same. *)
Definition blocked_with_image : GenerateContentResponse :=
  fusion_response (Some {| blockReason := Some BlockedReason.PROHIBITED_CONTENT |})
    (Some [candidate (Some FinishReason.STOP)
             (Some [{| inlineData := Some png; text := None |}])]).

(** Stopped for safety, with an image all the same. *)
Definition safety_with_image : GenerateContentResponse :=
  fusion_response None
    (Some [candidate (Some FinishReason.SAFETY)
             (Some [{| inlineData := Some png; text := None |}])]).

Definition only_text : GenerateContentResponse :=
  fusion_response None
    (Some [candidate (Some FinishReason.STOP)
             (Some [text_part (lit "I cannot do that.")])]).

Definition no_candidates : GenerateContentResponse :=
  fusion_response None (Some []).

Definition no_content : GenerateContentResponse :=
  fusion_response None
    (Some [{| content := None; finishReason := Some FinishReason.OTHER |}]).

Definition wear_the_item : js_string := lit "Make the character wear the item".

(** Both images are uploaded, then the character image is replaced. *)
Definition hero_then_knight : list Event :=
  [ ImageUpload CharacterSlot (image hero);
    ImageUpload ProductSlot (image mug);
    ImageUpload CharacterSlot (image knight) ].

(** Bodies of suggestion responses: prose instead of JSON, and an object
    without the suggestions field. *)
Definition apology : js_string := lit "Sorry, I cannot help with these images.".

Definition other_field : js_string :=
  lit "{" ++ [quote] ++ lit "ideas" ++ [quote] ++ lit ": []}".

End Samples.

(* ================================================================== *)
(** ** components/ImageUploader.tsx and what App renders *)
(* ================================================================== *)

Module ImageUploader.
Import Js GeminiService App.

Section Uploader.

(** [URL.createObjectURL]. *)
Variable createObjectURL : File -> js_string.

(** [files?.[0]] on the file list of an input or of a drag (null when the
    browser gives none). *)
Definition first_file (files : option (list File)) : option File :=
  match files with
  | Some fs => nth_error fs 0
  | None => None
  end.

(** Each handler yields the argument it passes to [onImageUpload], or
    nothing when it does not call it. *)
Definition handleFileChange (files : option (list File)) : option ImageFile :=
  match first_file files with
  | Some file => Some {| file := file; previewUrl := createObjectURL file |}
  | None => None
  end.

Definition handleDrop (files : option (list File)) : option ImageFile :=
  match first_file files with
  | Some file =>
      if startsWith (type file) (lit "image/")
      then Some {| file := file; previewUrl := createObjectURL file |}
      else None
  | None => None
  end.

End Uploader.

(** [onImageUpload] of an uploader is the state setter of its slot. *)
Definition onImageUpload (slot : Slot) (upload : option ImageFile) : list Event :=
  match upload with
  | Some imageFile => [ImageUpload slot imageFile]
  | None => []
  end.

End ImageUploader.

Module View.
Import Js Json GeminiService App.

Definition present {A} (x : option A) : bool :=
  match x with Some _ => true | None => false end.

(** [!characterImage || !productImage || isLoading]. *)
Definition isButtonDisabled (st : State) : bool :=
  negb (present (characterImage st)) || negb (present (productImage st))
  || isLoading st.

(** [!!characterImage && !!productImage]. *)
Definition hasBothImages (st : State) : bool :=
  present (characterImage st) && present (productImage st).

(** The four conditional blocks of the result panel. *)
Definition shows_spinner (st : State) : bool := isLoading st.

Definition shows_error (st : State) : bool :=
  present (error st) && negb (isLoading st).

Definition shows_image (st : State) : bool :=
  truthy_opt_string (generatedImage st) && negb (isLoading st).

Definition shows_placeholder (st : State) : bool :=
  negb (isLoading st) && negb (present (error st))
  && negb (truthy_opt_string (generatedImage st)).

(** The click of the Generate button: a disabled button delivers none. *)
Definition generate_button (st : State) : list Event :=
  if isButtonDisabled st then [] else [GenerateClick].

End View.

Module Wire.
Import Js Json GeminiService App.
Local Open Scope N_scope.

(** A code unit that a JSON string holds as itself: not a control
    character, not the quotation mark, not the reverse solidus. *)
Definition plain (c : code_unit) : Prop := 32 <= c /\ c <> 34 /\ c <> 92.

Definition quoted (s : js_string) : js_string := quote :: s ++ [quote].

Fixpoint listed (ss : list js_string) : js_string :=
  match ss with
  | [] => []
  | s :: rest =>
      match rest with
      | [] => quoted s
      | _ :: _ => quoted s ++ comma :: listed rest
      end
  end.

(** The body a service that follows the response schema sends for a list
    of suggestions. *)
Definition suggestions_body (ss : list js_string) : js_string :=
  lit "{" ++ quoted (lit "suggestions") ++ lit ":[" ++ listed ss ++ lit "]}".

Definition comma_free (s : js_string) : Prop := Forall (fun c => c <> comma) s.

(** A world like [Samples.world] with a reader of its own. *)
Definition world_reading (reader : File -> Completion js_string)
    (service : GenerateContentParameters -> Completion GenerateContentResponse)
  : World :=
  {| API_KEY := Samples.key;
     readAsDataURL := reader;
     generateContent := service;
     syntaxErrorMessage := fun text => lit "Unexpected token in JSON: " ++ text;
     typeErrorMessage := lit "Cannot read properties of null" |}.

(** A reader that fails on one file and loads the others. *)
Definition unreadable (bad : js_string) (f : File) : Completion js_string :=
  if str_eqb (name f) bad then Throw ErrorEvent else Samples.loads f.

Definition offline : GenerateContentParameters -> Completion GenerateContentResponse :=
  fun _ => Throw (ErrorObject Error (lit "Failed to fetch")).

Definition notes : File := {| name := lit "notes.pdf"; type := lit "application/pdf" |}.

Definition blob_url (f : File) : js_string := lit "blob:" ++ name f.

(** The first candidate has only text; the second has an image. *)
Definition image_in_second_candidate : GenerateContentResponse :=
  Samples.fusion_response None
    (Some [Samples.candidate (Some FinishReason.STOP)
             (Some [text_part (lit "I cannot do that.")]);
           Samples.candidate (Some FinishReason.STOP)
             (Some [{| inlineData := Some Samples.png; text := None |}])]).

(** Every settled position is a position of [calls]. *)
Definition settled_in_range (st : State) : Prop :=
  forall id, In id (settled st) -> (id < length (calls st))%nat.

(** A pending call of [generateFusedImage], of [generatePromptSuggestions]. *)
Definition generation_pending (st : State) : Prop :=
  exists id cf pf pr ar, pending id st = Some (FusedImageCall cf pf pr ar).

Definition suggestions_pending (st : State) : Prop :=
  exists id cf pf, pending id st = Some (SuggestionsCall cf pf).

(** The two events of one generation: the click, then the settlement of
    the call it made with what the service function produced. *)
Definition generation (w : World) (st : State) (c p : ImageFile) : list Event :=
  [ GenerateClick;
    FusedImageSettled (length (calls st))
      (fst (run (invoke_generateFusedImage w (file c) (file p) (prompt st)
                                           (outputAspectRatio st)))) ].

(** Both images uploaded and the Generate button clicked. *)
Definition generating : list Event :=
  [ ImageUpload CharacterSlot (Samples.image Samples.hero);
    ImageUpload ProductSlot (Samples.image Samples.mug);
    GenerateClick ].

Definition two_suggestions : list js_string :=
  [lit "Wear it"; lit "Hold the mug up high"].

(** Both images uploaded, nothing else done. *)
Definition both_uploaded : State :=
  fetchSuggestions
    (setProductImage (Some (Samples.image Samples.mug))
       (fetchSuggestions
          (setCharacterImage (Some (Samples.image Samples.hero)) initial))).

End Wire.

(* ================================================================== *)
(** ** JSON.parse never exhausts its recursion budget *)
(* ================================================================== *)

Section ParserBudget.
Import Js Json.

Lemma skip_ws_length (s : js_string) : length (skip_ws s) <= length s.
Proof.
  induction s as [|c r IH]; simpl; [lia|].
  destruct (is_json_ws c); simpl; lia.
Qed.

Lemma take_digits_length (s : js_string) :
  length (snd (take_digits s)) <= length s.
Proof.
  induction s as [|c r IH]; simpl; [lia|].
  destruct (is_digit c); simpl; [|lia].
  destruct (take_digits r) as [ds rest]; simpl in *; lia.
Qed.

Lemma parse_string_chars_strong (n : nat) :
  forall s, length s <= n ->
    parse_string_chars s <> OutOfFuel /\
    forall str r, parse_string_chars s = Ok str r -> length r < length s.
Proof.
  induction n as [|n IH]; intros s Hn.
  - destruct s; simpl in *; [|lia]. split; discriminate.
  - destruct s as [|c r]; simpl in *; [split; discriminate|].
    assert (Hsub : forall s', length s' <= length r ->
              parse_string_chars s' <> OutOfFuel /\
              forall str r', parse_string_chars s' = Ok str r' ->
                             length r' < S (length s')).
    { intros s' Hs'. destruct (IH s' ltac:(lia)) as [H1 H2]. split; [exact H1|].
      intros str r' E. specialize (H2 _ _ E). lia. }
    destruct (N.eqb c 34); [split; [discriminate|]; intros ? ? E; inversion E; subst; lia|].
    destruct (N.eqb c 92).
    + destruct r as [|e r1]; [split; discriminate|].
      destruct (N.eqb e 117).
      * destruct r1 as [|h1 [|h2 [|h3 [|h4 r2]]]]; try (split; discriminate).
        destruct (hex4 h1 h2 h3 h4); [|split; discriminate].
        destruct (Hsub r2 ltac:(simpl; lia)) as [H1 H2].
        destruct (parse_string_chars r2) as [str rest| |]; try (split; congruence).
        split; [discriminate|]. intros ? ? E; inversion E; subst.
        specialize (H2 _ _ eq_refl). simpl. lia.
      * destruct (simple_escape e); [|split; discriminate].
        destruct (Hsub r1 ltac:(simpl; lia)) as [H1 H2].
        destruct (parse_string_chars r1) as [str rest| |]; try (split; congruence).
        split; [discriminate|]. intros ? ? E; inversion E; subst.
        specialize (H2 _ _ eq_refl). simpl. lia.
    + destruct (N.ltb c 32); [split; discriminate|].
      destruct (Hsub r ltac:(lia)) as [H1 H2].
      destruct (parse_string_chars r) as [str rest| |]; try (split; congruence).
      split; [discriminate|]. intros ? ? E; inversion E; subst.
      specialize (H2 _ _ eq_refl). lia.
Qed.

Lemma parse_string_chars_fuel (s : js_string) : parse_string_chars s <> OutOfFuel.
Proof. exact (proj1 (parse_string_chars_strong (length s) s (le_n _))). Qed.

Lemma parse_string_chars_length (s str r : js_string) :
  parse_string_chars s = Ok str r -> length r < length s.
Proof. exact (proj2 (parse_string_chars_strong (length s) s (le_n _)) str r). Qed.

Lemma parse_fraction_length (s ds r : js_string) :
  parse_fraction s = Some (ds, r) -> length r <= length s.
Proof.
  unfold parse_fraction. destruct s as [|c s']; [intros E; inversion E; simpl; lia|].
  destruct (N.eqb c 46).
  - pose proof (take_digits_length s') as H.
    destruct (take_digits s') as [[|d ds'] rest]; [discriminate|].
    intros E; inversion E; subst. simpl in *. lia.
  - intros E; inversion E; subst. lia.
Qed.

Lemma parse_exponent_length (s r : js_string) (e : Z) :
  parse_exponent s = Some (e, r) -> length r <= length s.
Proof.
  unfold parse_exponent. destruct s as [|c s']; [intros E; inversion E; simpl; lia|].
  destruct (N.eqb c 101 || N.eqb c 69).
  - destruct s' as [|c1 r'].
    + simpl. discriminate.
    + destruct (N.eqb c1 43); [|destruct (N.eqb c1 45)].
      * pose proof (take_digits_length r') as H.
        destruct (take_digits r') as [[|d ds'] rest]; [discriminate|].
        intros E; inversion E; subst. simpl in *. lia.
      * pose proof (take_digits_length r') as H.
        destruct (take_digits r') as [[|d ds'] rest]; [discriminate|].
        intros E; inversion E; subst. simpl in *. lia.
      * pose proof (take_digits_length (c1 :: r')) as H.
        destruct (take_digits (c1 :: r')) as [[|d ds'] rest]; [discriminate|].
        intros E; inversion E; subst. simpl in *. lia.
  - intros E; inversion E; subst. lia.
Qed.

Lemma parse_number_fuel (s : js_string) : parse_number s <> OutOfFuel.
Proof.
  unfold parse_number.
  destruct (match s with
            | [] => (false, s)
            | c :: r => if N.eqb c 45 then (true, r) else (false, s)
            end) as [neg s1].
  destruct s1 as [|c r1]; [discriminate|].
  destruct (is_digit c); [|discriminate].
  destruct (if N.eqb c 48 then ([c], r1) else take_digits (c :: r1)) as [i s2].
  destruct (parse_fraction s2) as [[f s3]|]; [|discriminate].
  destruct (parse_exponent s3) as [[e s4]|]; discriminate.
Qed.

Lemma parse_number_length (s r : js_string) (n : NumberLiteral) :
  parse_number s = Ok n r -> length r < length s.
Proof.
  unfold parse_number.
  assert (Hs1 : length (snd (match s with
            | [] => (false, s)
            | c :: r => if N.eqb c 45 then (true, r) else (false, s)
            end)) <= length s).
  { destruct s as [|c r']; simpl; [lia|]. destruct (N.eqb c 45); simpl; lia. }
  destruct (match s with
            | [] => (false, s)
            | c :: r => if N.eqb c 45 then (true, r) else (false, s)
            end) as [neg s1]. simpl in Hs1.
  destruct s1 as [|c r1]; [discriminate|].
  destruct (is_digit c) eqn:Hd; [|discriminate].
  assert (Hs2 : length (snd (if N.eqb c 48 then ([c], r1) else take_digits (c :: r1)))
                <= length r1).
  { destruct (N.eqb c 48); simpl; [lia|]. rewrite Hd.
    pose proof (take_digits_length r1). destruct (take_digits r1); simpl in *; lia. }
  destruct (if N.eqb c 48 then ([c], r1) else take_digits (c :: r1)) as [i s2].
  simpl in Hs2.
  destruct (parse_fraction s2) as [[f s3]|] eqn:Hf; [|discriminate].
  destruct (parse_exponent s3) as [[e s4]|] eqn:He; [|discriminate].
  intros E; inversion E; subst.
  apply parse_fraction_length in Hf. apply parse_exponent_length in He.
  simpl in *. lia.
Qed.

Lemma skipn_lt {A} (n : nat) (c : A) (r : list A) :
  0 < n -> length (skipn n (c :: r)) < length (c :: r).
Proof.
  intros Hn. rewrite length_skipn.
  change (length (c :: r)) with (S (length r)). lia.
Qed.

Lemma parse_consumes (fuel : nat) :
  (forall s v r, parse_value fuel s = Ok v r -> length r < length s) /\
  (forall s vs r, parse_elements fuel s = Ok vs r -> length r < length s) /\
  (forall s ms r, parse_members fuel s = Ok ms r -> length r < length s).
Proof.
  induction fuel as [|fuel (IHv & IHe & IHm)];
    [repeat split; intros; discriminate|].
  split; [|split].
  - intros s v r. cbn [parse_value].
    destruct s as [|c s']; [discriminate|].
    destruct (N.eqb c 123).
    { pose proof (skip_ws_length s') as Hw.
      destruct (skip_ws s') as [|c' r']; [discriminate|].
      destruct (N.eqb c' 125).
      - intros E; inversion E; subst. simpl in *. lia.
      - destruct (parse_members fuel (c' :: r')) as [ms rest| |] eqn:Em;
          try discriminate.
        intros E; inversion E; subst. apply IHm in Em. simpl in *. lia. }
    destruct (N.eqb c 91).
    { pose proof (skip_ws_length s') as Hw.
      destruct (skip_ws s') as [|c' r']; [discriminate|].
      destruct (N.eqb c' 93).
      - intros E; inversion E; subst. simpl in *. lia.
      - destruct (parse_elements fuel (c' :: r')) as [vs rest| |] eqn:Ee;
          try discriminate.
        intros E; inversion E; subst. apply IHe in Ee. simpl in *. lia. }
    destruct (N.eqb c 34).
    { destruct (parse_string_chars s') as [str rest| |] eqn:Es; try discriminate.
      intros E; inversion E; subst. apply parse_string_chars_length in Es.
      simpl. lia. }
    destruct (startsWith (c :: s') (lit "true")).
    { intros E. assert (r = skipn 4 (c :: s')) as -> by congruence.
      apply skipn_lt; lia. }
    destruct (startsWith (c :: s') (lit "false")).
    { intros E. assert (r = skipn 5 (c :: s')) as -> by congruence.
      apply skipn_lt; lia. }
    destruct (startsWith (c :: s') (lit "null")).
    { intros E. assert (r = skipn 4 (c :: s')) as -> by congruence.
      apply skipn_lt; lia. }
    destruct (parse_number (c :: s')) as [n rest| |] eqn:En; try discriminate.
    intros E; inversion E; subst. apply parse_number_length in En. exact En.
  - intros s vs r. cbn [parse_elements].
    destruct (parse_value fuel s) as [v r0| |] eqn:Ev; try discriminate.
    apply IHv in Ev. pose proof (skip_ws_length r0) as Hw.
    destruct (skip_ws r0) as [|c r']; [discriminate|].
    destruct (N.eqb c 44).
    + pose proof (skip_ws_length r') as Hw'.
      destruct (parse_elements fuel (skip_ws r')) as [vs' rest| |] eqn:Ee;
        try discriminate.
      intros E; inversion E; subst. apply IHe in Ee. simpl in *. lia.
    + destruct (N.eqb c 93); [|discriminate].
      intros E; inversion E; subst. simpl in *. lia.
  - intros s ms r. cbn [parse_members].
    destruct s as [|q s']; [discriminate|].
    destruct (N.eqb q 34); [|discriminate].
    destruct (parse_string_chars s') as [key r1| |] eqn:Es; try discriminate.
    apply parse_string_chars_length in Es. pose proof (skip_ws_length r1) as Hw1.
    destruct (skip_ws r1) as [|c1 r2]; [discriminate|].
    destruct (N.eqb c1 58); [|discriminate].
    pose proof (skip_ws_length r2) as Hw2.
    destruct (parse_value fuel (skip_ws r2)) as [v r3| |] eqn:Ev; try discriminate.
    apply IHv in Ev. pose proof (skip_ws_length r3) as Hw3.
    destruct (skip_ws r3) as [|c2 r4]; [discriminate|].
    destruct (N.eqb c2 44).
    + pose proof (skip_ws_length r4) as Hw4.
      destruct (parse_members fuel (skip_ws r4)) as [ms' rest| |] eqn:Em;
        try discriminate.
      intros E; inversion E; subst. apply IHm in Em. simpl in *. lia.
    + destruct (N.eqb c2 125); [|discriminate].
      intros E; inversion E; subst. simpl in *. lia.
Qed.

(** With a budget of twice the input length plus one (plus two inside an
    array or object) the parser never stops for lack of budget. *)
Lemma parse_budget (fuel : nat) :
  (forall s, 2 * length s + 1 <= fuel -> parse_value fuel s <> OutOfFuel) /\
  (forall s, 2 * length s + 2 <= fuel -> parse_elements fuel s <> OutOfFuel) /\
  (forall s, 2 * length s + 2 <= fuel -> parse_members fuel s <> OutOfFuel).
Proof.
  induction fuel as [|fuel (IHv & IHe & IHm)];
    [repeat split; intros; lia|].
  split; [|split].
  - intros s Hf. cbn [parse_value].
    destruct s as [|c s']; [discriminate|]. simpl in Hf.
    destruct (N.eqb c 123).
    { pose proof (skip_ws_length s') as Hw.
      destruct (skip_ws s') as [|c' r'] eqn:Ew; [discriminate|].
      destruct (N.eqb c' 125); [discriminate|].
      specialize (IHm (c' :: r') ltac:(simpl in *; lia)).
      destruct (parse_members fuel (c' :: r')); congruence. }
    destruct (N.eqb c 91).
    { pose proof (skip_ws_length s') as Hw.
      destruct (skip_ws s') as [|c' r'] eqn:Ew; [discriminate|].
      destruct (N.eqb c' 93); [discriminate|].
      specialize (IHe (c' :: r') ltac:(simpl in *; lia)).
      destruct (parse_elements fuel (c' :: r')); congruence. }
    destruct (N.eqb c 34).
    { pose proof (parse_string_chars_fuel s').
      destruct (parse_string_chars s'); congruence. }
    destruct (startsWith (c :: s') (lit "true")); [discriminate|].
    destruct (startsWith (c :: s') (lit "false")); [discriminate|].
    destruct (startsWith (c :: s') (lit "null")); [discriminate|].
    pose proof (parse_number_fuel (c :: s')).
    destruct (parse_number (c :: s')); congruence.
  - intros s Hf. cbn [parse_elements].
    specialize (IHv s ltac:(lia)).
    destruct (parse_value fuel s) as [v r0| |] eqn:Ev; try congruence.
    apply (proj1 (parse_consumes fuel)) in Ev.
    pose proof (skip_ws_length r0) as Hw.
    destruct (skip_ws r0) as [|c r']; [discriminate|].
    destruct (N.eqb c 44).
    + pose proof (skip_ws_length r') as Hw'.
      specialize (IHe (skip_ws r') ltac:(simpl in *; lia)).
      destruct (parse_elements fuel (skip_ws r')); congruence.
    + destruct (N.eqb c 93); discriminate.
  - intros s Hf. cbn [parse_members].
    destruct s as [|q s']; [discriminate|]. simpl in Hf.
    destruct (N.eqb q 34); [|discriminate].
    pose proof (parse_string_chars_fuel s') as Hsf.
    destruct (parse_string_chars s') as [key r1| |] eqn:Es; try congruence.
    apply parse_string_chars_length in Es. pose proof (skip_ws_length r1) as Hw1.
    destruct (skip_ws r1) as [|c1 r2]; [discriminate|].
    destruct (N.eqb c1 58); [|discriminate].
    pose proof (skip_ws_length r2) as Hw2.
    specialize (IHv (skip_ws r2) ltac:(simpl in *; lia)).
    destruct (parse_value fuel (skip_ws r2)) as [v r3| |] eqn:Ev; try congruence.
    apply (proj1 (parse_consumes fuel)) in Ev. pose proof (skip_ws_length r3) as Hw3.
    destruct (skip_ws r3) as [|c2 r4]; [discriminate|].
    destruct (N.eqb c2 44).
    + pose proof (skip_ws_length r4) as Hw4.
      specialize (IHm (skip_ws r4) ltac:(simpl in *; lia)).
      destruct (parse_members fuel (skip_ws r4)); congruence.
    + destruct (N.eqb c2 125); discriminate.
Qed.

Lemma parse_text_fuel (s : js_string) : parse_text s <> OutOfFuel.
Proof.
  unfold parse_text.
  pose proof (skip_ws_length s) as Hw.
  pose proof (proj1 (parse_budget (2 * length s + 1)) (skip_ws s) ltac:(lia)) as Hv.
  destruct (parse_value (2 * length s + 1) (skip_ws s)) as [v r| |];
    try congruence.
  destruct (skip_ws r); discriminate.
Qed.

End ParserBudget.

(* ================================================================== *)
(** ** How a call of a service function runs *)
(* ================================================================== *)

Section ServiceRuns.
Import Js Json GeminiService App Properties.

(** The test of the conditional in [userInstruction] is a test on the
    trimmed text alone: an empty text trims to the empty text. *)
Lemma userInstruction_trim (userPrompt : js_string) :
  userInstruction userPrompt =
  if str_eqb (trim userPrompt) [] then defaultInstruction else userPrompt.
Proof.
  unfold userInstruction. destruct userPrompt as [|c r]; [reflexivity|].
  simpl truthy_string. rewrite andb_true_l.
  destruct (str_eqb (trim (c :: r)) []); reflexivity.
Qed.

Lemma blocked_reason_truthy (reason : BlockedReason.t) :
  truthy_string (BlockedReason.value reason) = true.
Proof. destruct reason; reflexivity. Qed.

Lemma finish_reason_safety (reason : FinishReason.t) :
  str_eqb (FinishReason.value reason) (lit "SAFETY") = true <->
  reason = FinishReason.SAFETY.
Proof.
  split; [|intros ->; reflexivity].
  destruct reason; intros H; try reflexivity; vm_compute in H; discriminate.
Qed.

Lemma is_blocked_true (r : GenerateContentResponse) :
  block_indicator r -> is_blocked r = true.
Proof.
  unfold is_blocked. intros [(pf & reason & Hpf & Hr) | (c & rest & Hc & Hf)].
  - rewrite Hpf, Hr, blocked_reason_truthy. reflexivity.
  - unfold first_candidate. rewrite Hc. simpl. rewrite Hf.
    rewrite (proj2 (finish_reason_safety _) eq_refl). apply orb_true_r.
Qed.

Lemma is_blocked_false (r : GenerateContentResponse) :
  no_block_indicators r -> is_blocked r = false.
Proof.
  unfold is_blocked. intros [Hpf Hc].
  destruct (promptFeedback r) as [pf|].
  - rewrite (Hpf pf eq_refl). simpl.
    destruct (first_candidate r) as [c|]; [|reflexivity].
    specialize (Hc c eq_refl).
    destruct (finishReason c) as [reason|]; [|reflexivity].
    destruct (str_eqb (FinishReason.value reason) (lit "SAFETY")) eqn:E;
      [|reflexivity].
    apply finish_reason_safety in E. congruence.
  - simpl. destruct (first_candidate r) as [c|]; [|reflexivity].
    specialize (Hc c eq_refl).
    destruct (finishReason c) as [reason|]; [|reflexivity].
    destruct (str_eqb (FinishReason.value reason) (lit "SAFETY")) eqn:E;
      [|reflexivity].
    apply finish_reason_safety in E. congruence.
Qed.

(** The loop returns at the first part with inline data. *)
Lemma scan_parts_first (pre post : list Part) (part : Part) (b : Blob) :
  Forall no_inline_data pre -> inlineData part = Some b ->
  scan_parts (pre ++ part :: post) = Some (data_url b).
Proof.
  intros Hpre Hb. induction Hpre as [|x pre Hx _ IH]; simpl.
  - rewrite Hb. reflexivity.
  - unfold no_inline_data in Hx. rewrite Hx. exact IH.
Qed.

Lemma scan_parts_none (ps : list Part) :
  Forall no_inline_data ps -> scan_parts ps = None.
Proof.
  induction 1 as [|x ps Hx _ IH]; simpl; [reflexivity|].
  unfold no_inline_data in Hx. rewrite Hx. exact IH.
Qed.

(** Among parts of which one has inline data there is a first such part. *)
Lemma first_inline_part (ps : list Part) :
  Exists has_inline_data ps ->
  exists pre part post b,
    ps = pre ++ part :: post /\ Forall no_inline_data pre /\
    inlineData part = Some b.
Proof.
  induction ps as [|x ps IH]; intros H; [inversion H|].
  destruct (inlineData x) as [b|] eqn:Hx.
  - exists [], x, ps, b. repeat split; [constructor | exact Hx].
  - assert (Hps : Exists has_inline_data ps).
    { inversion H as [? ? Hh | ? ? Ht]; subst; [|exact Ht].
      unfold has_inline_data in Hh. congruence. }
    destruct (IH Hps) as (pre & part & post & b & -> & Hpre & Hb).
    exists (x :: pre), part, post, b. repeat split; [|exact Hb].
    constructor; [exact Hx | exact Hpre].
Qed.

(** The optional chain over missing candidates, content or parts ends in
    the empty list of the [??]. *)
Lemma missing_structure_no_parts (r : GenerateContentResponse) :
  (candidates r = None \/
   candidates r = Some [] \/
   (exists cand rest, candidates r = Some (cand :: rest) /\
      (content cand = None \/
       exists ct, content cand = Some ct /\ parts ct = None))) ->
  response_parts r = [].
Proof.
  unfold response_parts, first_candidate.
  intros [H | [H | (cand & rest & H & [Hc | (ct & Hc & Hp)])]];
    rewrite H; simpl; try rewrite Hc; try rewrite Hp; reflexivity.
Qed.

Variable w : World.
Variables characterImageFile productImageFile : File.
Variables characterResult productResult : js_string.
Hypothesis Hreads :
  reads_succeed w characterImageFile productImageFile characterResult productResult.

Lemma generateFusedImage_run (userPrompt : js_string) :
  let request := fusion_request characterImageFile productImageFile
                   (base64_of characterResult) (base64_of productResult)
                   userPrompt in
  run (generateFusedImage w characterImageFile productImageFile userPrompt) =
  (match generateContent w request with
   | Normal response =>
       if is_blocked response then Throw SAFETY_error
       else match scan_parts (response_parts response) with
            | Some url => Normal url
            | None => Throw no_image_error
            end
   | Throw e => Throw e
   end,
   [FileRead characterImageFile; FileRead productImageFile;
    NetworkDispatch request]).
Proof.
  destruct Hreads as (Hkey & Hc & Hp).
  unfold generateFusedImage, run, bind, fileToBase64, models_generateContent,
    emit, throw, ret, base64_of.
  rewrite Hkey, Hc, Hp. simpl.
  destruct (generateContent w _) as [response|e]; [|reflexivity].
  destruct (is_blocked response); [reflexivity|].
  destruct (scan_parts (response_parts response)); reflexivity.
Qed.

Lemma generatePromptSuggestions_run :
  let request := suggestions_request characterImageFile productImageFile
                   (base64_of characterResult) (base64_of productResult) in
  run (generatePromptSuggestions w characterImageFile productImageFile) =
  (match generateContent w request with
   | Normal response =>
       match JSON_parse w (ToString (response_text response)) with
       | Normal jsonResponse =>
           match get_suggestions w jsonResponse with
           | Normal suggestions => Normal (or_else suggestions (JArray []))
           | Throw e => Throw e
           end
       | Throw e => Throw e
       end
   | Throw e => Throw e
   end,
   [FileRead characterImageFile; FileRead productImageFile;
    NetworkDispatch request]).
Proof.
  destruct Hreads as (Hkey & Hc & Hp).
  unfold generatePromptSuggestions, run, bind, fileToBase64,
    models_generateContent, emit, throw, ret, lift, base64_of.
  rewrite Hkey, Hc, Hp. simpl.
  destruct (generateContent w _) as [response|e]; [|reflexivity].
  destruct (JSON_parse w _) as [jsonResponse|e]; [|reflexivity].
  destruct (get_suggestions w jsonResponse); reflexivity.
Qed.

End ServiceRuns.

(* ================================================================== *)
(** ** Properties of generateFusedImage *)
(* ================================================================== *)

Section FusedImage.
Import Js Json GeminiService App Properties Samples.

(** C4: when the response of the fusion call has a block reason in its
    prompt feedback, or its first candidate finished for SAFETY,
    [generateFusedImage] rejects with the SAFETY_POLICY_VIOLATION error,
    whatever parts, with or without inline image data, the response also
    carries. *)
Theorem blocked_response_rejects_with_safety
    (w : World) (c p : File) (rc rp userPrompt : js_string)
    (response : GenerateContentResponse) :
  reads_succeed w c p rc rp ->
  generateContent w (fusion_request c p (base64_of rc) (base64_of rp) userPrompt)
    = Normal response ->
  block_indicator response ->
  fst (run (generateFusedImage w c p userPrompt)) = Throw SAFETY_error.
Proof.
  intros Hreads Hresp Hblock.
  rewrite (generateFusedImage_run w c p rc rp Hreads). simpl.
  rewrite Hresp, (is_blocked_true _ Hblock). reflexivity.
Qed.

Lemma blocked_response_rejects_with_safety_witness :
  (block_indicator blocked_with_image /\
   scan_parts (response_parts blocked_with_image) = Some (data_url png) /\
   fst (run (generateFusedImage (world key (answers blocked_with_image))
                                hero mug wear_the_item)) = Throw SAFETY_error)
  /\
  (block_indicator safety_with_image /\
   fst (run (generateFusedImage (world key (answers safety_with_image))
                                hero mug wear_the_item)) = Throw SAFETY_error).
Proof.
  assert (H1 : block_indicator blocked_with_image).
  { left. eexists. eexists. split; reflexivity. }
  assert (H2 : block_indicator safety_with_image).
  { right. eexists. eexists. split; reflexivity. }
  split; [split; [exact H1 | split; [reflexivity|]] | split; [exact H2|]].
  - eapply (blocked_response_rejects_with_safety
              (world key (answers blocked_with_image)) hero mug).
    + repeat split; reflexivity.
    + reflexivity.
    + exact H1.
  - eapply (blocked_response_rejects_with_safety
              (world key (answers safety_with_image)) hero mug).
    + repeat split; reflexivity.
    + reflexivity.
    + exact H2.
Defined.

(** C5: when the response has no block indicator and some part of its
    first candidate carries inline data, [generateFusedImage] resolves
    with the data URL of the first such part in order: its media type is
    that of this part, whatever parts follow. *)
Theorem first_inline_part_wins
    (w : World) (c p : File) (rc rp userPrompt : js_string)
    (response : GenerateContentResponse) :
  reads_succeed w c p rc rp ->
  generateContent w (fusion_request c p (base64_of rc) (base64_of rp) userPrompt)
    = Normal response ->
  no_block_indicators response ->
  Exists has_inline_data (response_parts response) ->
  exists pre part post b,
    response_parts response = pre ++ part :: post /\
    Forall no_inline_data pre /\
    inlineData part = Some b /\
    fst (run (generateFusedImage w c p userPrompt)) =
      Normal (lit "data:" ++ ToString (mimeType b) ++ lit ";base64,"
              ++ ToString (data b)) /\
    forall m, mimeType b = Some m ->
      fst (run (generateFusedImage w c p userPrompt)) =
        Normal (lit "data:" ++ m ++ lit ";base64," ++ ToString (data b)).
Proof.
  intros Hreads Hresp Hfree Hsome.
  destruct (first_inline_part _ Hsome) as (pre & part & post & b & Hps & Hpre & Hb).
  exists pre, part, post, b.
  assert (Hrun : fst (run (generateFusedImage w c p userPrompt)) =
                 Normal (data_url b)).
  { rewrite (generateFusedImage_run w c p rc rp Hreads). simpl.
    rewrite Hresp, (is_blocked_false _ Hfree), Hps.
    rewrite (scan_parts_first pre post part b Hpre Hb). reflexivity. }
  repeat split; try assumption.
  intros m Hm. rewrite Hrun. unfold data_url. rewrite Hm. reflexivity.
Qed.

Lemma first_inline_part_wins_witness :
  no_block_indicators two_images /\
  Exists has_inline_data (response_parts two_images) /\
  fst (run (generateFusedImage (world key (answers two_images))
                               hero mug wear_the_item)) =
    Normal (lit "data:image/png;base64,iVBORw0KGgo=").
Proof.
  assert (Hfree : no_block_indicators two_images).
  { split; [intros pf E; discriminate|].
    intros cand E. inversion E; subst. simpl. discriminate. }
  assert (Hsome : Exists has_inline_data (response_parts two_images)).
  { simpl. apply Exists_cons_tl, Exists_cons_hd. unfold has_inline_data.
    simpl. discriminate. }
  split; [exact Hfree | split; [exact Hsome|]].
  destruct (first_inline_part_wins (world key (answers two_images)) hero mug
              (lit "data:image/png;base64,hero.png")
              (lit "data:image/jpeg;base64,mug.jpg")
              wear_the_item two_images)
    as (pre & part & post & b & Hps & Hpre & Hb & Hrun & _).
  - repeat split; reflexivity.
  - reflexivity.
  - exact Hfree.
  - exact Hsome.
  - rewrite Hrun. clear Hrun.
    destruct pre as [|x1 [|x2 pre]]; simpl in Hps; inversion Hps; subst.
    + discriminate Hb.
    + simpl in Hb. inversion Hb; subst. reflexivity.
    + inversion Hpre as [|? ? _ Htl]; subst.
      inversion Htl as [|? ? Hhd _]; subst. discriminate Hhd.
Defined.

(** C6: when the response has no block indicator and no part of its first
    candidate carries inline data, [generateFusedImage] rejects with the
    no-image error. *)
Theorem no_inline_part_rejects
    (w : World) (c p : File) (rc rp userPrompt : js_string)
    (response : GenerateContentResponse) :
  reads_succeed w c p rc rp ->
  generateContent w (fusion_request c p (base64_of rc) (base64_of rp) userPrompt)
    = Normal response ->
  no_block_indicators response ->
  Forall no_inline_data (response_parts response) ->
  fst (run (generateFusedImage w c p userPrompt)) = Throw no_image_error.
Proof.
  intros Hreads Hresp Hfree Hnone.
  rewrite (generateFusedImage_run w c p rc rp Hreads). simpl.
  rewrite Hresp, (is_blocked_false _ Hfree), (scan_parts_none _ Hnone).
  reflexivity.
Qed.

Lemma no_inline_part_rejects_witness :
  no_block_indicators only_text /\
  Forall no_inline_data (response_parts only_text) /\
  fst (run (generateFusedImage (world key (answers only_text))
                               hero mug wear_the_item)) = Throw no_image_error.
Proof.
  assert (Hfree : no_block_indicators only_text).
  { split; [intros pf E; discriminate|].
    intros cand E. inversion E; subst. simpl. discriminate. }
  assert (Hnone : Forall no_inline_data (response_parts only_text)).
  { simpl. repeat constructor. }
  split; [exact Hfree | split; [exact Hnone|]].
  eapply (no_inline_part_rejects (world key (answers only_text)) hero mug).
  - repeat split; reflexivity.
  - reflexivity.
  - exact Hfree.
  - exact Hnone.
Defined.

(** C10: when the response has no block indicator and its candidate list
    is missing or empty, or its first candidate has no content, or that
    content has no parts list, [generateFusedImage] rejects with the
    no-image error: reading the parts of such a response raises nothing. *)
Theorem missing_structure_rejects_with_no_image
    (w : World) (c p : File) (rc rp userPrompt : js_string)
    (response : GenerateContentResponse) :
  reads_succeed w c p rc rp ->
  generateContent w (fusion_request c p (base64_of rc) (base64_of rp) userPrompt)
    = Normal response ->
  no_block_indicators response ->
  (candidates response = None \/
   candidates response = Some [] \/
   (exists cand rest, candidates response = Some (cand :: rest) /\
      (content cand = None \/
       exists ct, content cand = Some ct /\ parts ct = None))) ->
  fst (run (generateFusedImage w c p userPrompt)) = Throw no_image_error.
Proof.
  intros Hreads Hresp Hfree Hmissing.
  rewrite (generateFusedImage_run w c p rc rp Hreads). simpl.
  rewrite Hresp, (is_blocked_false _ Hfree), (missing_structure_no_parts _ Hmissing).
  reflexivity.
Qed.

Lemma missing_structure_rejects_with_no_image_witness :
  fst (run (generateFusedImage (world key (answers no_candidates))
                               hero mug wear_the_item)) = Throw no_image_error /\
  fst (run (generateFusedImage (world key (answers no_content))
                               hero mug wear_the_item)) = Throw no_image_error.
Proof.
  split.
  - eapply (missing_structure_rejects_with_no_image
              (world key (answers no_candidates)) hero mug).
    + repeat split; reflexivity.
    + reflexivity.
    + split; [intros pf E; discriminate | intros cand E; discriminate].
    + right; left; reflexivity.
  - eapply (missing_structure_rejects_with_no_image
              (world key (answers no_content)) hero mug).
    + repeat split; reflexivity.
    + reflexivity.
    + split; [intros pf E; discriminate|].
      intros cand E. inversion E; subst. simpl. discriminate.
    + right; right. eexists. eexists. split; [reflexivity|]. left; reflexivity.
Defined.

End FusedImage.

(* ================================================================== *)
(** ** The credential check and the prompt *)
(* ================================================================== *)

Section Requests.
Import Js Json GeminiService App Properties Samples.

(** C7: with no API_KEY in the environment, [generatePromptSuggestions]
    and [generateFusedImage] reject with the API_KEY error, and nothing
    was observable before: no file read, no network dispatch. *)
Theorem missing_credential_rejects_first
    (w : World) (c p : File) (userPrompt : js_string) :
  API_KEY w = None ->
  run (generatePromptSuggestions w c p) = (Throw API_KEY_error, []) /\
  run (generateFusedImage w c p userPrompt) = (Throw API_KEY_error, []).
Proof.
  intros Hkey. unfold generatePromptSuggestions, generateFusedImage.
  rewrite Hkey. split; reflexivity.
Qed.

Lemma missing_credential_rejects_first_witness :
  run (generatePromptSuggestions (world None suggesting) hero mug)
    = (Throw API_KEY_error, []) /\
  run (generateFusedImage (world None (answers two_images)) hero mug wear_the_item)
    = (Throw API_KEY_error, []).
Proof.
  split.
  - apply (missing_credential_rejects_first (world None suggesting) hero mug []).
    reflexivity.
  - apply (missing_credential_rejects_first (world None (answers two_images))
             hero mug wear_the_item).
    reflexivity.
Defined.

(** C9: the instruction placed in the prompt of the fusion request is the
    user's text itself when that text is not empty after trimming, and the
    default instruction otherwise; the prompt is the fixed template around
    that instruction and nothing more, whatever aspect ratio the caller
    passes: so an empty text with ratio original gives the default
    instruction with no further clause. *)
Theorem effective_instruction
    (w : World) (c p : File) (rc rp userPrompt outputAspectRatio : js_string) :
  reads_succeed w c p rc rp ->
  let instruction :=
    if str_eqb (trim userPrompt) [] then defaultInstruction else userPrompt in
  userInstruction userPrompt = instruction /\
  snd (run (invoke_generateFusedImage w c p userPrompt outputAspectRatio)) =
    [ FileRead c; FileRead p;
      NetworkDispatch
        {| model := lit "gemini-2.5-flash-image";
           contents :=
             {| parts :=
                  Some [ inline_part (base64_of rc) (type c);
                         inline_part (base64_of rp) (type p);
                         text_part (prompt_head ++ instruction ++ prompt_tail) ] |};
           config :=
             {| responseMimeType := None; responseSchema := None;
                responseModalities := Some [IMAGE; TEXT] |} |} ].
Proof.
  intros Hreads instruction. split; [apply userInstruction_trim|].
  unfold invoke_generateFusedImage.
  rewrite (generateFusedImage_run w c p rc rp Hreads). simpl snd.
  unfold fusion_request, fusion_prompt. rewrite userInstruction_trim.
  reflexivity.
Qed.

Lemma effective_instruction_witness :
  (userInstruction [] = defaultInstruction /\
   snd (run (invoke_generateFusedImage (world key (answers two_images))
               hero mug [] (lit "original"))) =
     [ FileRead hero; FileRead mug;
       NetworkDispatch
         {| model := lit "gemini-2.5-flash-image";
            contents :=
              {| parts :=
                   Some [ inline_part (Some (lit "hero.png")) (lit "image/png");
                          inline_part (Some (lit "mug.jpg")) (lit "image/jpeg");
                          text_part (prompt_head ++ defaultInstruction ++ prompt_tail) ] |};
            config :=
              {| responseMimeType := None; responseSchema := None;
                 responseModalities := Some [IMAGE; TEXT] |} |} ])
  /\
  userInstruction (lit "  Put the mug on the table ")
    = lit "  Put the mug on the table "
  /\
  userInstruction (lit "   ") = defaultInstruction.
Proof.
  split; [|split].
  - exact (effective_instruction (world key (answers two_images)) hero mug
             (lit "data:image/png;base64,hero.png")
             (lit "data:image/jpeg;base64,mug.jpg")
             [] (lit "original")
             (conj eq_refl (conj eq_refl eq_refl))).
  - exact (proj1 (effective_instruction (world key (answers two_images)) hero mug
             (lit "data:image/png;base64,hero.png")
             (lit "data:image/jpeg;base64,mug.jpg")
             (lit "  Put the mug on the table ") (lit "1:1")
             (conj eq_refl (conj eq_refl eq_refl)))).
  - exact (proj1 (effective_instruction (world key (answers two_images)) hero mug
             (lit "data:image/png;base64,hero.png")
             (lit "data:image/jpeg;base64,mug.jpg")
             (lit "   ") (lit "original")
             (conj eq_refl (conj eq_refl eq_refl)))).
Defined.

(** C1, at the input where the code departs from it: with the prompt
    [Make the character wear the item] and the ratio 1:1 selected,
    [handleGenerate] passes the ratio as a fourth argument, and the request
    that is dispatched carries the template around the user's text with no
    clause about 1:1 (rule 5 of the template still asks for the dimensions
    of the character image); it is the request dispatched for the ratio
    original. *)
Theorem selected_aspect_ratio_is_dropped :
  let w := world key (answers two_images) in
  exists st,
    steps initial [ ImageUpload CharacterSlot (image hero);
                    ImageUpload ProductSlot (image mug);
                    PromptChange wear_the_item;
                    AspectRatioClick (lit "1:1");
                    GenerateClick ] = Some st /\
    nth_error (calls st) 1 =
      Some (FusedImageCall hero mug wear_the_item (lit "1:1")) /\
    snd (run (invoke_generateFusedImage w hero mug wear_the_item (lit "1:1"))) =
      [ FileRead hero; FileRead mug;
        NetworkDispatch
          (fusion_request hero mug (Some (lit "hero.png")) (Some (lit "mug.jpg"))
                          wear_the_item) ] /\
    fusion_prompt wear_the_item = prompt_head ++ wear_the_item ++ prompt_tail /\
    includes (fusion_prompt wear_the_item) (lit "1:1") = false /\
    includes (fusion_prompt wear_the_item)
             (lit "MUST have the same dimensions and aspect ratio as the Character Image")
      = true /\
    run (invoke_generateFusedImage w hero mug wear_the_item (lit "1:1")) =
    run (invoke_generateFusedImage w hero mug wear_the_item (lit "original")).
Proof.
  intros w. eexists. split; [reflexivity|].
  repeat split; vm_compute; reflexivity.
Qed.

End Requests.

(* ================================================================== *)
(** ** Properties of the component *)
(* ================================================================== *)

Section Component.
Import Js Json GeminiService App Properties Samples.

Lemma app_tail_neq {A} (l : list A) (x : A) : l ++ [x] <> l.
Proof.
  intros H. apply (f_equal (@length A)) in H.
  rewrite length_app in H. simpl in H. lia.
Qed.

Lemma fetchSuggestions_calls (st : State) :
  calls (fetchSuggestions st) = calls st \/
  exists cf pf, calls (fetchSuggestions st) = calls st ++ [SuggestionsCall cf pf].
Proof.
  unfold fetchSuggestions.
  destruct (characterImage st) as [c|]; [|left; reflexivity].
  destruct (productImage st) as [p|]; [|left; reflexivity].
  right. exists (file c), (file p). reflexivity.
Qed.

(** Only [handleGenerate], with both images present, adds a call of
    [generateFusedImage]. *)
(** A step that leaves [calls] as it was has not added a call. *)
Ltac no_new_call H :=
  simpl in H; symmetry in H; apply app_tail_neq in H; contradiction.

Lemma step_fused_call (st st' : State) (ev : Event) (x : ServiceCall) :
  step st ev = Some st' ->
  calls st' = calls st ++ [x] ->
  (exists a b, x = SuggestionsCall a b) \/
  (ev = GenerateClick /\
   exists c p, characterImage st = Some c /\ productImage st = Some p /\
     x = FusedImageCall (file c) (file p) (prompt st) (outputAspectRatio st)).
Proof.
  intros Hstep Hcalls. destruct ev; simpl in Hstep.
  - destruct slot; inversion Hstep; subst; clear Hstep;
      match type of Hcalls with
      | calls (fetchSuggestions ?s) = _ =>
          destruct (fetchSuggestions_calls s) as [E | (a & b & E)];
            rewrite E in Hcalls; simpl in Hcalls
      end;
      try no_new_call Hcalls;
      apply app_inj_tail in Hcalls; destruct Hcalls as [_ <-];
      left; eauto.
  - inversion Hstep; subst. no_new_call Hcalls.
  - inversion Hstep; subst. no_new_call Hcalls.
  - inversion Hstep; subst; clear Hstep. unfold handleGenerate in Hcalls.
    destruct (characterImage st) as [c|] eqn:Hc;
      [destruct (productImage st) as [p|] eqn:Hp|]; simpl in Hcalls;
      try no_new_call Hcalls.
    apply app_inj_tail in Hcalls. destruct Hcalls as [_ <-].
    right. split; [reflexivity|]. exists c, p. repeat split.
  - inversion Hstep; subst. no_new_call Hcalls.
  - destruct (pending id st) as [[? ?|? ? ? ?]|]; try discriminate.
    inversion Hstep; subst. unfold fetchSuggestions_resume in Hcalls.
    destruct outcome; no_new_call Hcalls.
  - destruct (pending id st) as [[? ?|? ? ? ?]|]; try discriminate.
    inversion Hstep; subst. unfold handleGenerate_resume in Hcalls.
    destruct outcome as [result|e]; [no_new_call Hcalls|].
    destruct (str_eqb _ _); [|destruct (includes _ _)]; no_new_call Hcalls.
Qed.

(** C8: in every reachable state, a call of [generateFusedImage] is added
    by a step only when that step is [handleGenerate] and both images are
    present, and it carries their files; and [handleGenerate] with an
    image missing makes no call and sets the Missing Images error. *)
Theorem generation_requires_both_images (st : State) :
  reachable st ->
  (forall ev st' cf pf pr ar,
     step st ev = Some st' ->
     calls st' = calls st ++ [FusedImageCall cf pf pr ar] ->
     ev = GenerateClick /\
     exists c p, characterImage st = Some c /\ productImage st = Some p /\
                 cf = file c /\ pf = file p) /\
  (characterImage st = None \/ productImage st = None ->
   exists st', step st GenerateClick = Some st' /\
               calls st' = calls st /\
               error st' = Some missing_images /\
               isLoading st' = isLoading st /\
               generatedImage st' = generatedImage st).
Proof.
  intros _. split.
  - intros ev st' cf pf pr ar Hstep Hcalls.
    destruct (step_fused_call st st' ev _ Hstep Hcalls)
      as [(a & b & E) | (Hev & c & p & Hc & Hp & E)]; [discriminate|].
    split; [exact Hev|]. exists c, p. inversion E; subst. repeat split; assumption.
  - intros Hmissing. exists (setError (Some missing_images) st).
    simpl. unfold handleGenerate.
    destruct Hmissing as [H | H]; rewrite H.
    + repeat split.
    + destruct (characterImage st); repeat split.
Qed.

Lemma generation_requires_both_images_witness :
  exists st,
    steps initial [ImageUpload CharacterSlot (image hero); GenerateClick] = Some st /\
    calls st = [] /\ error st = Some missing_images.
Proof.
  destruct (generation_requires_both_images
              (fetchSuggestions (setCharacterImage (Some (image hero)) initial)))
    as [_ H].
  - exists [ImageUpload CharacterSlot (image hero)]. reflexivity.
  - destruct (H (or_intror eq_refl)) as (st' & Hstep & Hcalls & Herr & _).
    exists st'. repeat split.
    + simpl. simpl in Hstep. rewrite Hstep. reflexivity.
    + exact Hcalls.
    + exact Herr.
Defined.

(** C3, as the code has it: when the promise of a suggestion call settles
    with a value, that value becomes the suggestion state and the loading
    flag is cleared, whichever images the call was made for and whichever
    images are current: the suggestion state shows the result that arrived
    last. *)
Theorem settled_suggestions_are_stored
    (st : State) (id : nat) (cf pf : File) (suggestions : JsValue) :
  pending id st = Some (SuggestionsCall cf pf) ->
  exists st',
    step st (SuggestionsSettled id (Normal suggestions)) = Some st' /\
    dynamicSuggestions st' = suggestions /\
    isSuggestionsLoading st' = false /\
    characterImage st' = characterImage st /\
    productImage st' = productImage st.
Proof.
  intros Hpending. eexists. simpl. rewrite Hpending.
  split; [reflexivity|]. repeat split.
Qed.

Lemma settled_suggestions_are_stored_witness :
  exists st st',
    steps initial hero_then_knight = Some st /\
    pending 0 st = Some (SuggestionsCall hero mug) /\
    characterImage st = Some (image knight) /\
    step st (SuggestionsSettled 0 (Normal (JArray [JString (lit "Hero drinks")])))
      = Some st' /\
    dynamicSuggestions st' = JArray [JString (lit "Hero drinks")].
Proof.
  eexists. 
  destruct (settled_suggestions_are_stored
              (fetchSuggestions (setCharacterImage (Some (image knight))
                (fetchSuggestions (setProductImage (Some (image mug))
                  (fetchSuggestions (setCharacterImage (Some (image hero)) initial))))))
              0 hero mug (JArray [JString (lit "Hero drinks")]) eq_refl)
    as (st' & Hstep & Hs & _).
  exists st'. split; [reflexivity|]. split; [reflexivity|].
  split; [reflexivity|]. split; [exact Hstep | exact Hs].
Defined.

(** C3 fails on the code: the character image is replaced while the fetch
    for (hero, mug) is pending; the fetch for (knight, mug) settles first
    and the one for (hero, mug) after it; the suggestion state ends as the
    result for (hero, mug), not the result for the current pair. *)
Lemma stale_suggestions_overwrite_current :
  let w := world key suggesting in
  let stale := fst (run (generatePromptSuggestions w hero mug)) in
  let current := fst (run (generatePromptSuggestions w knight mug)) in
  exists st,
    steps initial (hero_then_knight ++
                   [SuggestionsSettled 1 current; SuggestionsSettled 0 stale])
      = Some st /\
    calls st = [SuggestionsCall hero mug; SuggestionsCall knight mug] /\
    characterImage st = Some (image knight) /\
    productImage st = Some (image mug) /\
    current = Normal (JArray [JString (lit "Give the mug to knight.png")]) /\
    stale = Normal (JArray [JString (lit "Give the mug to hero.png")]) /\
    Normal (dynamicSuggestions st) = stale /\
    Normal (dynamicSuggestions st) <> current.
Proof.
  intros w stale current. eexists. split; [vm_compute; reflexivity|].
  repeat split; try (vm_compute; reflexivity).
  vm_compute. discriminate.
Qed.

(** C2, as the code has it: for a response that is not a transport
    failure, [generatePromptSuggestions] resolves with the empty list when
    the body parses as JSON and the parsed value has no suggestions field;
    when the body does not parse as JSON it rejects with the SyntaxError of
    [JSON.parse], and the effect that awaits it catches the rejection:
    suggestion state and error state stay as they were and the loading
    flag is cleared. *)
Theorem suggestions_of_malformed_response
    (w : World) (c p : File) (rc rp : js_string)
    (response : GenerateContentResponse) :
  reads_succeed w c p rc rp ->
  generateContent w (suggestions_request c p (base64_of rc) (base64_of rp))
    = Normal response ->
  let body := ToString (response_text response) in
  let result := fst (run (generatePromptSuggestions w c p)) in
  (forall v rest,
     parse_text body = Ok v rest -> get_suggestions w v = Normal None ->
     result = Normal (JArray [])) /\
  (parse_text body = Bad ->
     result = Throw (ErrorObject SyntaxError (syntaxErrorMessage w body)) /\
     forall st id cf pf,
       pending id st = Some (SuggestionsCall cf pf) ->
       exists st',
         step st (SuggestionsSettled id result) = Some st' /\
         dynamicSuggestions st' = dynamicSuggestions st /\
         error st' = error st /\
         isSuggestionsLoading st' = false).
Proof.
  intros Hreads Hresp body result.
  assert (Hrun : result =
            match JSON_parse w body with
            | Normal jsonResponse =>
                match get_suggestions w jsonResponse with
                | Normal suggestions => Normal (or_else suggestions (JArray []))
                | Throw e => Throw e
                end
            | Throw e => Throw e
            end).
  { unfold result. rewrite (generatePromptSuggestions_run w c p rc rp Hreads).
    simpl. rewrite Hresp. reflexivity. }
  split.
  - intros v rest Hparse Hget. rewrite Hrun. unfold JSON_parse.
    rewrite Hparse, Hget. reflexivity.
  - intros Hparse.
    assert (Hthrow : result =
              Throw (ErrorObject SyntaxError (syntaxErrorMessage w body))).
    { rewrite Hrun. unfold JSON_parse. rewrite Hparse. reflexivity. }
    split; [exact Hthrow|].
    intros st id cf pf Hpending. rewrite Hthrow. simpl. rewrite Hpending.
    eexists. split; [reflexivity|]. repeat split.
Qed.

Lemma suggestions_of_malformed_response_witness :
  fst (run (generatePromptSuggestions
              (world key (answers (text_response (Some other_field)))) hero mug))
    = Normal (JArray [])
  /\
  exists st st',
    steps initial hero_then_knight = Some st /\
    step st (SuggestionsSettled 1
               (fst (run (generatePromptSuggestions
                            (world key (answers (text_response (Some apology))))
                            knight mug)))) = Some st' /\
    dynamicSuggestions st' = JArray [] /\
    error st' = None /\
    isSuggestionsLoading st' = false.
Proof.
  split.
  - destruct (suggestions_of_malformed_response
                (world key (answers (text_response (Some other_field)))) hero mug
                (lit "data:image/png;base64,hero.png")
                (lit "data:image/jpeg;base64,mug.jpg")
                (text_response (Some other_field))
                (conj eq_refl (conj eq_refl eq_refl)) eq_refl) as [H _].
    apply (H (JObject [(lit "ideas", JArray [])]) []); reflexivity.
  - destruct (suggestions_of_malformed_response
                (world key (answers (text_response (Some apology)))) knight mug
                (lit "data:image/png;base64,knight.png")
                (lit "data:image/jpeg;base64,mug.jpg")
                (text_response (Some apology))
                (conj eq_refl (conj eq_refl eq_refl)) eq_refl) as [_ H].
    destruct (H eq_refl) as [_ Hcaller].
    eexists.
    destruct (Hcaller
                (fetchSuggestions (setCharacterImage (Some (image knight))
                  (fetchSuggestions (setProductImage (Some (image mug))
                    (fetchSuggestions
                       (setCharacterImage (Some (image hero)) initial))))))
                1 knight mug eq_refl) as (st' & Hstep & Hs & He & Hl).
    exists st'. split; [reflexivity|]. split; [exact Hstep|].
    split; [rewrite Hs; reflexivity|]. split; [rewrite He; reflexivity | exact Hl].
Defined.

(** C2 fails on the code: the service answers with prose instead of JSON
    (no transport failure), and [generatePromptSuggestions] rejects with
    the SyntaxError of [JSON.parse] instead of resolving with the empty
    list. *)
Lemma malformed_body_rejects :
  let w := world key (answers (text_response (Some apology))) in
  generateContent w
    (suggestions_request hero mug (Some (lit "hero.png")) (Some (lit "mug.jpg")))
    = Normal (text_response (Some apology)) /\
  parse_text apology = Bad /\
  fst (run (generatePromptSuggestions w hero mug)) =
    Throw (ErrorObject SyntaxError (syntaxErrorMessage w apology)) /\
  fst (run (generatePromptSuggestions w hero mug)) <> Normal (JArray []).
Proof.
  intros w. split; [reflexivity|]. split; [vm_compute; reflexivity|].
  split; [vm_compute; reflexivity|]. vm_compute. discriminate.
Qed.

End Component.

(* ================================================================== *)
(** ** Failure paths and the order of effects of the service calls *)
(* ================================================================== *)

Section ServicePaths.
Import Js Json GeminiService App Properties Samples Wire.

Lemma falsy_key (k : option js_string) :
  truthy_opt_string k = false <-> k = None \/ k = Some [].
Proof.
  destruct k as [[|c r]|]; simpl; split; intros H; auto; try discriminate.
  - destruct H as [H | H]; discriminate.
Qed.

(** Every path of [generateFusedImage]. *)
Lemma generateFusedImage_paths (w : World) (c p : File) (userPrompt : js_string) :
  run (generateFusedImage w c p userPrompt) =
  if truthy_opt_string (API_KEY w) then
    match readAsDataURL w c with
    | Throw e => (Throw e, [FileRead c])
    | Normal rc =>
        match readAsDataURL w p with
        | Throw e => (Throw e, [FileRead c; FileRead p])
        | Normal rp =>
            (match generateContent w
                     (fusion_request c p (base64_of rc) (base64_of rp) userPrompt) with
             | Normal response =>
                 if is_blocked response then Throw SAFETY_error
                 else match scan_parts (response_parts response) with
                      | Some url => Normal url
                      | None => Throw no_image_error
                      end
             | Throw e => Throw e
             end,
             [FileRead c; FileRead p;
              NetworkDispatch
                (fusion_request c p (base64_of rc) (base64_of rp) userPrompt)])
        end
    end
  else (Throw API_KEY_error, []).
Proof.
  unfold generateFusedImage, run, bind, fileToBase64, models_generateContent,
    emit, throw, ret, base64_of.
  destruct (truthy_opt_string (API_KEY w)); [|reflexivity]. simpl.
  destruct (readAsDataURL w c) as [rc|e]; [|reflexivity]. simpl.
  destruct (readAsDataURL w p) as [rp|e]; [|reflexivity]. simpl.
  destruct (generateContent w _) as [response|e]; [|reflexivity].
  destruct (is_blocked response); [reflexivity|].
  destruct (scan_parts (response_parts response)); reflexivity.
Qed.

(** Every path of [generatePromptSuggestions]. *)
Lemma generatePromptSuggestions_paths (w : World) (c p : File) :
  run (generatePromptSuggestions w c p) =
  if truthy_opt_string (API_KEY w) then
    match readAsDataURL w c with
    | Throw e => (Throw e, [FileRead c])
    | Normal rc =>
        match readAsDataURL w p with
        | Throw e => (Throw e, [FileRead c; FileRead p])
        | Normal rp =>
            (match generateContent w
                     (suggestions_request c p (base64_of rc) (base64_of rp)) with
             | Normal response =>
                 match JSON_parse w (ToString (response_text response)) with
                 | Normal jsonResponse =>
                     match get_suggestions w jsonResponse with
                     | Normal suggestions => Normal (or_else suggestions (JArray []))
                     | Throw e => Throw e
                     end
                 | Throw e => Throw e
                 end
             | Throw e => Throw e
             end,
             [FileRead c; FileRead p;
              NetworkDispatch
                (suggestions_request c p (base64_of rc) (base64_of rp))])
        end
    end
  else (Throw API_KEY_error, []).
Proof.
  unfold generatePromptSuggestions, run, bind, fileToBase64,
    models_generateContent, emit, throw, ret, lift, base64_of.
  destruct (truthy_opt_string (API_KEY w)); [|reflexivity]. simpl.
  destruct (readAsDataURL w c) as [rc|e]; [|reflexivity]. simpl.
  destruct (readAsDataURL w p) as [rp|e]; [|reflexivity]. simpl.
  destruct (generateContent w _) as [response|e]; [|reflexivity].
  destruct (JSON_parse w _) as [jsonResponse|e]; [|reflexivity].
  destruct (get_suggestions w jsonResponse); reflexivity.
Qed.

(** X1: a call of either service function leaves no observable event
    exactly when the API key is undefined or the empty string, and it then
    rejects with the API_KEY error. *)
Theorem silent_exactly_without_key
    (w : World) (c p : File) (userPrompt : js_string) :
  ((API_KEY w = None \/ API_KEY w = Some []) <->
   snd (run (generateFusedImage w c p userPrompt)) = []) /\
  ((API_KEY w = None \/ API_KEY w = Some []) <->
   snd (run (generatePromptSuggestions w c p)) = []) /\
  (API_KEY w = None \/ API_KEY w = Some [] ->
   fst (run (generateFusedImage w c p userPrompt)) = Throw API_KEY_error /\
   fst (run (generatePromptSuggestions w c p)) = Throw API_KEY_error).
Proof.
  rewrite generateFusedImage_paths, generatePromptSuggestions_paths.
  rewrite <- falsy_key.
  destruct (truthy_opt_string (API_KEY w)).
  - repeat split; try discriminate;
      destruct (readAsDataURL w c); try discriminate;
      destruct (readAsDataURL w p); discriminate.
  - repeat split.
Qed.

Lemma silent_exactly_without_key_witness :
  run (generateFusedImage (world (Some []) (answers two_images)) hero mug [])
    = (Throw API_KEY_error, []) /\
  snd (run (generatePromptSuggestions (world key suggesting) hero mug)) <> [].
Proof.
  destruct (silent_exactly_without_key (world (Some []) (answers two_images))
              hero mug []) as (H1 & _ & H3).
  destruct (silent_exactly_without_key (world key suggesting) hero mug [])
    as (_ & H2 & _).
  split.
  - rewrite (surjective_pairing (run _)).
    rewrite (proj1 (H3 (or_intror eq_refl))), (proj1 H1 (or_intror eq_refl)).
    reflexivity.
  - intros E. apply (proj2 H2) in E. destruct E as [E | E]; discriminate E.
Defined.

(** X2: when the character image cannot be read, either service function
    rejects with what the reader raised; the product image is not read and
    nothing is dispatched. *)
Theorem first_read_failure_stops_the_call
    (w : World) (c p : File) (userPrompt : js_string) (e : JsThrown) :
  truthy_opt_string (API_KEY w) = true ->
  readAsDataURL w c = Throw e ->
  run (generateFusedImage w c p userPrompt) = (Throw e, [FileRead c]) /\
  run (generatePromptSuggestions w c p) = (Throw e, [FileRead c]).
Proof.
  intros Hkey Hc.
  rewrite generateFusedImage_paths, generatePromptSuggestions_paths, Hkey, Hc.
  split; reflexivity.
Qed.

Lemma first_read_failure_stops_the_call_witness :
  run (generateFusedImage (world_reading (unreadable (lit "hero.png"))
                                         (answers two_images))
                          hero mug wear_the_item)
    = (Throw ErrorEvent, [FileRead hero]).
Proof.
  apply (first_read_failure_stops_the_call
           (world_reading (unreadable (lit "hero.png")) (answers two_images))
           hero mug wear_the_item ErrorEvent); reflexivity.
Defined.

(** X3: when the product image cannot be read, either service function
    rejects with what the reader raised, after both reads and with nothing
    dispatched. *)
Theorem second_read_failure_stops_the_call
    (w : World) (c p : File) (userPrompt rc : js_string) (e : JsThrown) :
  truthy_opt_string (API_KEY w) = true ->
  readAsDataURL w c = Normal rc ->
  readAsDataURL w p = Throw e ->
  run (generateFusedImage w c p userPrompt)
    = (Throw e, [FileRead c; FileRead p]) /\
  run (generatePromptSuggestions w c p)
    = (Throw e, [FileRead c; FileRead p]).
Proof.
  intros Hkey Hc Hp.
  rewrite generateFusedImage_paths, generatePromptSuggestions_paths, Hkey, Hc, Hp.
  split; reflexivity.
Qed.

Lemma second_read_failure_stops_the_call_witness :
  run (generatePromptSuggestions (world_reading (unreadable (lit "mug.jpg"))
                                                suggesting)
                                 hero mug)
    = (Throw ErrorEvent, [FileRead hero; FileRead mug]).
Proof.
  eapply (second_read_failure_stops_the_call
            (world_reading (unreadable (lit "mug.jpg")) suggesting)
            hero mug [] _ ErrorEvent); reflexivity.
Defined.

(** X4: when the service call itself rejects, either service function
    rejects with the same error, after both reads and one dispatch. *)
Theorem transport_failure_is_passed_on
    (w : World) (c p : File) (rc rp userPrompt : js_string) (e : JsThrown) :
  reads_succeed w c p rc rp ->
  (generateContent w (fusion_request c p (base64_of rc) (base64_of rp) userPrompt)
     = Throw e ->
   run (generateFusedImage w c p userPrompt) =
     (Throw e,
      [FileRead c; FileRead p;
       NetworkDispatch
         (fusion_request c p (base64_of rc) (base64_of rp) userPrompt)])) /\
  (generateContent w (suggestions_request c p (base64_of rc) (base64_of rp))
     = Throw e ->
   run (generatePromptSuggestions w c p) =
     (Throw e,
      [FileRead c; FileRead p;
       NetworkDispatch (suggestions_request c p (base64_of rc) (base64_of rp))])).
Proof.
  intros (Hkey & Hc & Hp).
  rewrite generateFusedImage_paths, generatePromptSuggestions_paths, Hkey, Hc, Hp.
  split; intros Hg; rewrite Hg; reflexivity.
Qed.

Lemma transport_failure_is_passed_on_witness :
  fst (run (generateFusedImage (world key offline) hero mug wear_the_item))
    = Throw (ErrorObject Error (lit "Failed to fetch")) /\
  fst (run (generatePromptSuggestions (world key offline) hero mug))
    = Throw (ErrorObject Error (lit "Failed to fetch")).
Proof.
  destruct (transport_failure_is_passed_on (world key offline) hero mug
              (lit "data:image/png;base64,hero.png")
              (lit "data:image/jpeg;base64,mug.jpg")
              wear_the_item (ErrorObject Error (lit "Failed to fetch"))
              (conj eq_refl (conj eq_refl eq_refl))) as [H1 H2].
  split; [rewrite (H1 eq_refl) | rewrite (H2 eq_refl)]; reflexivity.
Defined.

(** X5: in every world, what a call of [generateFusedImage] lets observe
    is an initial part of: read the character image, read the product
    image, dispatch one request for these two files and this prompt.  It
    never dispatches before both reads, and never twice. *)
Theorem fused_image_effects_in_order
    (w : World) (c p : File) (userPrompt : js_string) :
  exists n b1 b2,
    snd (run (generateFusedImage w c p userPrompt)) =
    firstn n [FileRead c; FileRead p;
              NetworkDispatch (fusion_request c p b1 b2 userPrompt)].
Proof.
  rewrite generateFusedImage_paths.
  destruct (truthy_opt_string (API_KEY w)); [|exists 0, None, None; reflexivity].
  destruct (readAsDataURL w c) as [rc|e]; [|exists 1, None, None; reflexivity].
  destruct (readAsDataURL w p) as [rp|e]; [|exists 2, None, None; reflexivity].
  exists 3, (base64_of rc), (base64_of rp). reflexivity.
Qed.

(** X6: the same for [generatePromptSuggestions]: an initial part of read,
    read, one dispatch of the suggestion request for these two files. *)
Theorem suggestions_effects_in_order (w : World) (c p : File) :
  exists n b1 b2,
    snd (run (generatePromptSuggestions w c p)) =
    firstn n [FileRead c; FileRead p;
              NetworkDispatch (suggestions_request c p b1 b2)].
Proof.
  rewrite generatePromptSuggestions_paths.
  destruct (truthy_opt_string (API_KEY w)); [|exists 0, None, None; reflexivity].
  destruct (readAsDataURL w c) as [rc|e]; [|exists 1, None, None; reflexivity].
  destruct (readAsDataURL w p) as [rp|e]; [|exists 2, None, None; reflexivity].
  exists 3, (base64_of rc), (base64_of rp). reflexivity.
Qed.

End ServicePaths.

(* ================================================================== *)
(** ** What the service functions read and what they resolve with *)
(* ================================================================== *)

Section ServiceValues.
Import Js Json GeminiService App Properties Samples Wire.

Lemma split_comma_free (s : js_string) :
  comma_free s -> split comma s = [s].
Proof.
  induction 1 as [|c r Hc _ IH]; [reflexivity|].
  simpl. apply N.eqb_neq in Hc. rewrite Hc, IH. reflexivity.
Qed.

Lemma split_at_comma (h r : js_string) :
  comma_free h -> split comma (h ++ comma :: r) = h :: split comma r.
Proof.
  induction 1 as [|c h' Hc _ IH].
  - reflexivity.
  - simpl. apply N.eqb_neq in Hc. rewrite Hc, IH. reflexivity.
Qed.

(** X7: [fileToBase64] resolves with what stands between the first and
    the second comma of the reader's result (to the end when there is no
    second comma), and with undefined when the result has no comma. *)
Theorem fileToBase64_takes_the_payload
    (w : World) (f : File) (result : js_string) :
  readAsDataURL w f = Normal result ->
  (comma_free result ->
   run (fileToBase64 w f) = (Normal None, [FileRead f])) /\
  (forall h p, comma_free h -> comma_free p -> result = h ++ comma :: p ->
   run (fileToBase64 w f) = (Normal (Some p), [FileRead f])) /\
  (forall h p t, comma_free h -> comma_free p ->
   result = h ++ comma :: p ++ comma :: t ->
   run (fileToBase64 w f) = (Normal (Some p), [FileRead f])).
Proof.
  intros Hread. unfold run, fileToBase64, emit. rewrite Hread.
  split; [|split].
  - intros Hfree. rewrite (split_comma_free _ Hfree). reflexivity.
  - intros h p Hh Hp ->. rewrite (split_at_comma _ _ Hh), (split_comma_free _ Hp).
    reflexivity.
  - intros h p t Hh Hp ->.
    rewrite (split_at_comma _ _ Hh), (split_at_comma _ _ Hp). reflexivity.
Qed.

Lemma lit_comma_free_png : comma_free (lit "data:image/png;base64").
Proof. repeat constructor; discriminate. Qed.

Lemma lit_comma_free_name : comma_free (lit "hero.png").
Proof. repeat constructor; discriminate. Qed.

Lemma fileToBase64_takes_the_payload_witness :
  run (fileToBase64 (world key suggesting) hero)
    = (Normal (Some (lit "hero.png")), [FileRead hero]).
Proof.
  destruct (fileToBase64_takes_the_payload (world key suggesting) hero
              (lit "data:image/png;base64,hero.png") eq_refl) as (_ & H & _).
  apply (H (lit "data:image/png;base64") (lit "hero.png")
           lit_comma_free_png lit_comma_free_name eq_refl).
Defined.

(** X8: the instruction placed in the fusion prompt is never blank:
    trimming it never gives the empty string. *)
Theorem instruction_is_never_blank (userPrompt : js_string) :
  trim (userInstruction userPrompt) <> [].
Proof.
  rewrite userInstruction_trim.
  destruct (str_eqb (trim userPrompt) []) eqn:E.
  - vm_compute. discriminate.
  - intros H. rewrite H in E. discriminate.
Qed.

Lemma scan_parts_found (ps : list Part) (url : js_string) :
  scan_parts ps = Some url ->
  exists part b, In part ps /\ inlineData part = Some b /\ url = data_url b.
Proof.
  induction ps as [|x ps IH]; simpl; [discriminate|].
  destruct (inlineData x) as [b|] eqn:Hx.
  - intros E; inversion E; subst. exists x, b. auto.
  - intros E. destruct (IH E) as (part & b & Hin & Hb & Hu).
    exists part, b. auto.
Qed.

Lemma startsWith_app (p r : js_string) : startsWith (p ++ r) p = true.
Proof.
  induction p as [|x p IH]; simpl; [destruct r; reflexivity|].
  rewrite N.eqb_refl. exact IH.
Qed.

(** X9: whatever the world, a value [generateFusedImage] resolves with is
    the data URL of a part with inline data that the service returned in
    the first candidate of its response; it starts with [data:]. *)
Theorem resolved_value_is_a_returned_data_url
    (w : World) (c p : File) (userPrompt url : js_string) :
  fst (run (generateFusedImage w c p userPrompt)) = Normal url ->
  exists rc rp response part b,
    readAsDataURL w c = Normal rc /\ readAsDataURL w p = Normal rp /\
    generateContent w (fusion_request c p (base64_of rc) (base64_of rp) userPrompt)
      = Normal response /\
    In part (response_parts response) /\
    inlineData part = Some b /\
    url = lit "data:" ++ ToString (mimeType b) ++ lit ";base64," ++ ToString (data b) /\
    startsWith url (lit "data:") = true.
Proof.
  rewrite generateFusedImage_paths.
  destruct (truthy_opt_string (API_KEY w)); [|discriminate].
  destruct (readAsDataURL w c) as [rc|e]; [|discriminate].
  destruct (readAsDataURL w p) as [rp|e]; [|discriminate].
  simpl.
  destruct (generateContent w _) as [response|e] eqn:Hg; [|discriminate].
  destruct (is_blocked response); [discriminate|].
  destruct (scan_parts (response_parts response)) as [u|] eqn:Hs; [|discriminate].
  intros E; inversion E; subst.
  destruct (scan_parts_found _ _ Hs) as (part & b & Hin & Hb & ->).
  exists rc, rp, response, part, b. repeat split; auto.
  unfold data_url. apply startsWith_app.
Qed.

Lemma resolved_value_is_a_returned_data_url_witness :
  exists part b,
    In part (response_parts two_images) /\ inlineData part = Some b /\
    lit "data:image/png;base64,iVBORw0KGgo=" = data_url b.
Proof.
  destruct (resolved_value_is_a_returned_data_url
              (world key (answers two_images)) hero mug wear_the_item
              (lit "data:image/png;base64,iVBORw0KGgo=") eq_refl)
    as (rc & rp & response & part & b & _ & _ & Hg & Hin & Hb & Hu & _).
  inversion Hg; subst. exists part, b. auto.
Defined.

(** X10: the outcome of [generateFusedImage] depends on the response only
    through its prompt feedback and its first candidate: candidates after
    the first, and any inline data they carry, are never looked at. *)
Theorem later_candidates_are_ignored
    (w w' : World) (c p : File) (rc rp userPrompt : js_string)
    (response response' : GenerateContentResponse) :
  reads_succeed w c p rc rp ->
  reads_succeed w' c p rc rp ->
  generateContent w (fusion_request c p (base64_of rc) (base64_of rp) userPrompt)
    = Normal response ->
  generateContent w' (fusion_request c p (base64_of rc) (base64_of rp) userPrompt)
    = Normal response' ->
  promptFeedback response = promptFeedback response' ->
  first_candidate response = first_candidate response' ->
  fst (run (generateFusedImage w c p userPrompt)) =
  fst (run (generateFusedImage w' c p userPrompt)).
Proof.
  intros Hr Hr' Hg Hg' Hpf Hfc.
  rewrite (generateFusedImage_run w c p rc rp Hr).
  rewrite (generateFusedImage_run w' c p rc rp Hr').
  simpl. rewrite Hg, Hg'.
  unfold is_blocked, response_parts. rewrite Hpf, Hfc. reflexivity.
Qed.

Lemma later_candidates_are_ignored_witness :
  fst (run (generateFusedImage (world key (answers image_in_second_candidate))
                               hero mug wear_the_item))
  = Throw no_image_error.
Proof.
  rewrite (later_candidates_are_ignored
             (world key (answers image_in_second_candidate))
             (world key (answers only_text)) hero mug
             (lit "data:image/png;base64,hero.png")
             (lit "data:image/jpeg;base64,mug.jpg")
             wear_the_item image_in_second_candidate only_text
             (conj eq_refl (conj eq_refl eq_refl))
             (conj eq_refl (conj eq_refl eq_refl))
             eq_refl eq_refl eq_refl eq_refl).
  reflexivity.
Defined.

(** X11: when the body of the suggestion response is the JSON value null,
    [generatePromptSuggestions] rejects with the TypeError of the property
    read. *)
Theorem null_body_rejects_with_type_error
    (w : World) (c p : File) (rc rp rest : js_string)
    (response : GenerateContentResponse) :
  reads_succeed w c p rc rp ->
  generateContent w (suggestions_request c p (base64_of rc) (base64_of rp))
    = Normal response ->
  parse_text (ToString (response_text response)) = Ok JNull rest ->
  fst (run (generatePromptSuggestions w c p)) =
    Throw (ErrorObject TypeError (typeErrorMessage w)).
Proof.
  intros Hreads Hg Hparse.
  rewrite (generatePromptSuggestions_run w c p rc rp Hreads). simpl.
  rewrite Hg. unfold JSON_parse. rewrite Hparse. reflexivity.
Qed.

Lemma null_body_rejects_with_type_error_witness :
  fst (run (generatePromptSuggestions
              (world key (answers (text_response (Some (lit " null ")))))
              hero mug))
  = Throw (ErrorObject TypeError (lit "Cannot read properties of null")).
Proof.
  eapply (null_body_rejects_with_type_error
            (world key (answers (text_response (Some (lit " null ")))))
            hero mug).
  - repeat split; reflexivity.
  - reflexivity.
  - reflexivity.
Defined.

(** X12: when the response has no text at all, [JSON.parse] is applied to
    the string undefined, and [generatePromptSuggestions] rejects with its
    SyntaxError. *)
Theorem missing_text_rejects_with_syntax_error
    (w : World) (c p : File) (rc rp : js_string)
    (response : GenerateContentResponse) :
  reads_succeed w c p rc rp ->
  generateContent w (suggestions_request c p (base64_of rc) (base64_of rp))
    = Normal response ->
  response_text response = None ->
  fst (run (generatePromptSuggestions w c p)) =
    Throw (ErrorObject SyntaxError (syntaxErrorMessage w (lit "undefined"))).
Proof.
  intros Hreads Hg Htext.
  rewrite (generatePromptSuggestions_run w c p rc rp Hreads). simpl.
  rewrite Hg, Htext. reflexivity.
Qed.

Lemma missing_text_rejects_with_syntax_error_witness :
  fst (run (generatePromptSuggestions (world key (answers no_candidates)) hero mug))
  = Throw (ErrorObject SyntaxError (lit "Unexpected token in JSON: undefined")).
Proof.
  eapply (missing_text_rejects_with_syntax_error
            (world key (answers no_candidates)) hero mug).
  - repeat split; reflexivity.
  - reflexivity.
  - reflexivity.
Defined.

End ServiceValues.

(* ================================================================== *)
(** ** A response that follows the schema *)
(* ================================================================== *)

Section SchemaAnswer.
Import Js Json GeminiService App Properties Samples Wire.

Lemma parse_plain_string (s rest : js_string) :
  Forall plain s -> parse_string_chars (s ++ quote :: rest) = Ok s rest.
Proof.
  induction 1 as [|c s' (Hlo & Hq & Hb) _ IH]; [reflexivity|].
  change ((c :: s') ++ quote :: rest) with (c :: (s' ++ quote :: rest)).
  cbn [parse_string_chars].
  apply N.eqb_neq in Hq. apply N.eqb_neq in Hb.
  assert (Hlt : N.ltb c 32 = false) by (apply N.ltb_ge; exact Hlo).
  rewrite Hq, Hb, Hlt, IH. reflexivity.
Qed.

Lemma quoted_app (s rest : js_string) :
  quoted s ++ rest = quote :: s ++ quote :: rest.
Proof. unfold quoted. simpl. rewrite <- app_assoc. reflexivity. Qed.

Lemma listed_app (s : js_string) (ss : list js_string) (rest : js_string) :
  listed (s :: ss) ++ rest =
  quote :: s ++ quote ::
    match ss with
    | [] => rest
    | _ :: _ => comma :: listed ss ++ rest
    end.
Proof.
  destruct ss as [|s2 ss']; cbn [listed].
  - apply quoted_app.
  - rewrite <- app_assoc. rewrite quoted_app. reflexivity.
Qed.

Lemma parse_quoted_value (fuel : nat) (s rest : js_string) :
  Forall plain s ->
  parse_value (S fuel) (quote :: s ++ quote :: rest) = Ok (JString s) rest.
Proof.
  intros Hs. cbn [parse_value].
  change (N.eqb quote 123) with false. change (N.eqb quote 91) with false.
  change (N.eqb quote 34) with true. cbn iota.
  rewrite (parse_plain_string s rest Hs). reflexivity.
Qed.

Lemma parse_listed (ss : list js_string) :
  forall (s rest : js_string) (fuel : nat),
    Forall (Forall plain) (s :: ss) ->
    length (s :: ss) < fuel ->
    parse_elements fuel (listed (s :: ss) ++ 93%N :: rest) =
    Ok (map JString (s :: ss)) rest.
Proof.
  induction ss as [|s2 ss' IH]; intros s rest fuel Hplain Hfuel;
    destruct fuel as [|f]; simpl in Hfuel; try lia;
    rewrite listed_app; cbn [parse_elements];
    destruct f as [|f]; try lia;
    rewrite (parse_quoted_value f s _ (Forall_inv Hplain)).
  - reflexivity.
  - change (skip_ws (comma :: listed (s2 :: ss') ++ 93%N :: rest))
      with (comma :: listed (s2 :: ss') ++ 93%N :: rest).
    change (N.eqb comma 44) with true. cbn iota.
    assert (Hskip : skip_ws (listed (s2 :: ss') ++ 93%N :: rest) =
                    listed (s2 :: ss') ++ 93%N :: rest).
    { rewrite listed_app. reflexivity. }
    rewrite Hskip.
    rewrite (IH s2 rest (S f) (Forall_inv_tail Hplain) ltac:(simpl; lia)).
    reflexivity.
Qed.

Lemma plain_suggestions : Forall plain (lit "suggestions").
Proof.
  unfold lit. simpl.
  repeat (constructor; [unfold plain; lia|]). constructor.
Qed.

Lemma listed_length (ss : list js_string) : length ss <= length (listed ss).
Proof.
  induction ss as [|s ss IH]; [simpl; lia|].
  destruct ss as [|s2 ss']; [simpl; lia|].
  change (listed (s :: s2 :: ss')) with (quoted s ++ comma :: listed (s2 :: ss')).
  remember (listed (s2 :: ss')) as tail eqn:Htail. clear Htail.
  rewrite length_app. simpl in *. lia.
Qed.

Lemma parse_suggestions_body (ss : list js_string) (fuel : nat) :
  Forall (Forall plain) ss ->
  length ss + 3 < fuel ->
  parse_value fuel (suggestions_body ss) =
  Ok (JObject [(lit "suggestions", JArray (map JString ss))]) [].
Proof.
  intros Hplain Hfuel.
  unfold suggestions_body. rewrite quoted_app.
  change (lit "{" ++ quote :: lit "suggestions" ++ quote ::
            lit ":[" ++ listed ss ++ lit "]}")
    with (123%N :: quote :: lit "suggestions" ++ quote ::
            58%N :: 91%N :: listed ss ++ [93%N; 125%N]).
  destruct fuel as [|f1]; [lia|]. cbn [parse_value].
  change (N.eqb 123 123) with true. cbn iota.
  change (skip_ws (quote :: lit "suggestions" ++ quote ::
                     58%N :: 91%N :: listed ss ++ [93%N; 125%N]))
    with (quote :: lit "suggestions" ++ quote ::
            58%N :: 91%N :: listed ss ++ [93%N; 125%N]).
  cbn iota. change (N.eqb quote 125) with false. cbn iota.
  destruct f1 as [|f2]; [lia|]. cbn [parse_members].
  change (N.eqb quote 34) with true. cbn iota.
  rewrite (parse_plain_string _ _ plain_suggestions).
  change (skip_ws (58%N :: 91%N :: listed ss ++ [93%N; 125%N]))
    with (58%N :: 91%N :: listed ss ++ [93%N; 125%N]).
  cbn iota. change (N.eqb 58 58) with true. cbn iota.
  change (skip_ws (91%N :: listed ss ++ [93%N; 125%N]))
    with (91%N :: listed ss ++ [93%N; 125%N]).
  assert (Harray : parse_value f2 (91%N :: listed ss ++ [93%N; 125%N]) =
                   Ok (JArray (map JString ss)) [125%N]).
  { destruct f2 as [|f3]; [lia|]. cbn [parse_value].
    change (N.eqb 91 123) with false. change (N.eqb 91 91) with true. cbn iota.
    destruct ss as [|s ss']; [reflexivity|].
    pose proof (parse_listed ss' s [125%N] f3 Hplain ltac:(simpl in *; lia)) as Hl.
    rewrite listed_app in Hl |- *.
    change (skip_ws (quote :: ?x)) with (quote :: x). cbn iota.
    change (N.eqb quote 93) with false. cbn iota.
    rewrite Hl. reflexivity. }
  rewrite Harray. reflexivity.
Qed.

(** X13: when the body of the suggestion response is the JSON object the
    response schema asks for, with a list of strings that need no escape
    under the key suggestions, [generatePromptSuggestions] resolves with
    exactly these strings, in order. *)
Theorem schema_answer_is_returned
    (w : World) (c p : File) (rc rp : js_string) (ss : list js_string)
    (response : GenerateContentResponse) :
  reads_succeed w c p rc rp ->
  generateContent w (suggestions_request c p (base64_of rc) (base64_of rp))
    = Normal response ->
  response_text response = Some (suggestions_body ss) ->
  Forall (Forall plain) ss ->
  fst (run (generatePromptSuggestions w c p)) = Normal (JArray (map JString ss)).
Proof.
  intros Hreads Hg Htext Hplain.
  rewrite (generatePromptSuggestions_run w c p rc rp Hreads). simpl fst.
  rewrite Hg, Htext. unfold ToString, JSON_parse, parse_text.
  assert (Hskip : skip_ws (suggestions_body ss) = suggestions_body ss)
    by reflexivity.
  rewrite Hskip.
  rewrite (parse_suggestions_body ss _ Hplain).
  - reflexivity.
  - pose proof (listed_length ss) as Hl.
    unfold suggestions_body. rewrite !length_app. simpl length. lia.
Qed.

Lemma schema_answer_is_returned_witness :
  fst (run (generatePromptSuggestions
              (world key (answers (text_response
                                     (Some (suggestions_body two_suggestions)))))
              hero mug))
  = Normal (JArray [JString (lit "Wear it"); JString (lit "Hold the mug up high")]).
Proof.
  apply (schema_answer_is_returned
           (world key (answers (text_response
                                  (Some (suggestions_body two_suggestions)))))
           hero mug
           (lit "data:image/png;base64,hero.png")
           (lit "data:image/jpeg;base64,mug.jpg")
           two_suggestions
           (text_response (Some (suggestions_body two_suggestions)))
           (conj eq_refl (conj eq_refl eq_refl)) eq_refl eq_refl).
  unfold two_suggestions, lit. simpl.
  repeat (constructor; [repeat (constructor; [unfold plain; lia|]); constructor|]).
  constructor.
Defined.

End SchemaAnswer.

(* ================================================================== *)
(** ** Invariants of the component *)
(* ================================================================== *)

Section ComponentInvariants.
Import Js Json GeminiService App Properties Samples View Wire.

Lemma not_settled (id : nat) (l : list nat) :
  existsb (Nat.eqb id) l = false <-> ~ In id l.
Proof.
  split.
  - intros H Hin. assert (existsb (Nat.eqb id) l = true); [|congruence].
    apply existsb_exists. exists id. split; [exact Hin | apply Nat.eqb_refl].
  - intros H. destruct (existsb (Nat.eqb id) l) eqn:E; [|reflexivity].
    apply existsb_exists in E. destruct E as (x & Hin & Hx).
    apply Nat.eqb_eq in Hx. subst. contradiction.
Qed.

Lemma pending_in_range (id : nat) (st : State) (x : ServiceCall) :
  pending id st = Some x -> id < length (calls st) /\ ~ In id (settled st).
Proof.
  unfold pending. destruct (existsb (Nat.eqb id) (settled st)) eqn:E;
    [discriminate|].
  intros H. split; [apply nth_error_Some; congruence | apply not_settled; exact E].
Qed.

(** A pending call stays pending when calls are only added. *)
Lemma pending_kept (st st' : State) (id : nat) (x : ServiceCall) :
  settled st' = settled st ->
  (calls st' = calls st \/ exists c, calls st' = calls st ++ [c]) ->
  pending id st = Some x -> pending id st' = Some x.
Proof.
  intros Hs Hc Hp. destruct (pending_in_range _ _ _ Hp) as [Hlt _].
  unfold pending in *. rewrite Hs.
  destruct (existsb (Nat.eqb id) (settled st)); [discriminate|].
  destruct Hc as [-> | (c & ->)]; [exact Hp|].
  rewrite nth_error_app1; assumption.
Qed.

(** It stays pending when another call settles. *)
Lemma pending_kept_settle (st st' : State) (id id' : nat) (x : ServiceCall) :
  settled st' = id :: settled st -> calls st' = calls st ->
  id' <> id -> pending id' st = Some x -> pending id' st' = Some x.
Proof.
  intros Hs Hc Hne Hp. unfold pending in *. rewrite Hs, Hc. simpl.
  destruct (Nat.eqb id' id) eqn:E; [apply Nat.eqb_eq in E; contradiction|].
  exact Hp.
Qed.

(** A call just made is pending. *)
Lemma pending_new (st st' : State) (c : ServiceCall) :
  settled_in_range st ->
  settled st' = settled st -> calls st' = calls st ++ [c] ->
  pending (length (calls st)) st' = Some c.
Proof.
  intros Hr Hs Hc. unfold pending. rewrite Hs, Hc.
  assert (E : existsb (Nat.eqb (length (calls st))) (settled st) = false).
  { apply not_settled. intros Hin. apply Hr in Hin. lia. }
  rewrite E, nth_error_app2, Nat.sub_diag; [reflexivity | lia].
Qed.

Lemma fetchSuggestions_fields (st : State) :
  characterImage (fetchSuggestions st) = characterImage st /\
  productImage (fetchSuggestions st) = productImage st /\
  isLoading (fetchSuggestions st) = isLoading st /\
  settled (fetchSuggestions st) = settled st.
Proof.
  unfold fetchSuggestions.
  destruct (characterImage st) eqn:Hc, (productImage st) eqn:Hp; simpl; auto.
Qed.

Lemma fetchSuggestions_effect (st : State) :
  (exists cf pf,
     calls (fetchSuggestions st) = calls st ++ [SuggestionsCall cf pf] /\
     isSuggestionsLoading (fetchSuggestions st) = true) \/
  (calls (fetchSuggestions st) = calls st /\
   isSuggestionsLoading (fetchSuggestions st) = isSuggestionsLoading st).
Proof.
  unfold fetchSuggestions.
  destruct (characterImage st) as [c|]; [|right; split; reflexivity].
  destruct (productImage st) as [p|]; [|right; split; reflexivity].
  left. exists (file c), (file p). split; reflexivity.
Qed.

Ltac kept H :=
  eapply pending_kept; [| | exact H]; [reflexivity | simpl; eauto].

(** The three invariants hold together along every step. *)
Lemma step_keeps_invariants (st st' : State) (ev : Event) :
  settled_in_range st /\
  (isLoading st = true -> hasBothImages st = true /\ generation_pending st) /\
  (isSuggestionsLoading st = true -> suggestions_pending st) ->
  step st ev = Some st' ->
  settled_in_range st' /\
  (isLoading st' = true -> hasBothImages st' = true /\ generation_pending st') /\
  (isSuggestionsLoading st' = true -> suggestions_pending st').
Proof.
  intros (Hrange & Hgen & Hsug) Hstep.
  destruct ev as [slot img|value|ratio| | |id outcome|id outcome];
    simpl in Hstep.
  - (* upload *)
    set (st1 := match slot with
                | CharacterSlot => setCharacterImage (Some img) st
                | ProductSlot => setProductImage (Some img) st
                end).
    assert (Hst' : st' = fetchSuggestions st1)
      by (destruct slot; inversion Hstep; reflexivity).
    subst st'. clear Hstep.
    destruct (fetchSuggestions_fields st1) as (Hci & Hpi & Hload & Hs).
    assert (Hcalls1 : calls st1 = calls st) by (destruct slot; reflexivity).
    assert (Hs1 : settled st1 = settled st) by (destruct slot; reflexivity).
    assert (Hl1 : isLoading st1 = isLoading st) by (destruct slot; reflexivity).
    assert (Hsl1 : isSuggestionsLoading st1 = isSuggestionsLoading st)
      by (destruct slot; reflexivity).
    assert (Himg : hasBothImages st = true ->
                   hasBothImages (fetchSuggestions st1) = true).
    { unfold hasBothImages. rewrite Hci, Hpi.
      destruct slot; simpl; destruct (characterImage st), (productImage st);
        simpl; auto. }
    rewrite Hs1 in Hs. rewrite Hl1 in Hload.
    assert (Hkeep : forall i x, pending i st = Some x ->
                                pending i (fetchSuggestions st1) = Some x).
    { intros i x Hp. eapply pending_kept; [exact Hs | | exact Hp].
      destruct (fetchSuggestions_effect st1) as [(cf & pf & Hc & _) | (Hc & _)];
        rewrite Hc, Hcalls1; eauto. }
    split; [|split].
    + intros i Hin. rewrite Hs in Hin. apply Hrange in Hin.
      destruct (fetchSuggestions_effect st1) as [(cf & pf & Hc & _) | (Hc & _)];
        rewrite Hc, Hcalls1; [rewrite length_app; simpl|]; lia.
    + rewrite Hload. intros Hl. destruct (Hgen Hl) as [Hb (i & a & b & c & d & Hp)].
      split; [auto|]. exists i, a, b, c, d. auto.
    + destruct (fetchSuggestions_effect st1) as [(cf & pf & Hc & _) | (Hc & Hl)].
      * intros _. exists (length (calls st)), cf, pf.
        eapply pending_new; [exact Hrange | exact Hs |].
        rewrite Hc, Hcalls1. reflexivity.
      * rewrite Hl, Hsl1. intros H. destruct (Hsug H) as (i & a & b & Hp).
        exists i, a, b. auto.
  - (* prompt *)
    inversion Hstep; subst; clear Hstep. split; [exact Hrange|]. split.
    + intros Hl. destruct (Hgen Hl) as [Hb (i & a & b & c & d & Hp)].
      split; [exact Hb|]. exists i, a, b, c, d. kept Hp.
    + intros Hl. destruct (Hsug Hl) as (i & a & b & Hp).
      exists i, a, b. kept Hp.
  - (* aspect ratio *)
    inversion Hstep; subst; clear Hstep. split; [exact Hrange|]. split.
    + intros Hl. destruct (Hgen Hl) as [Hb (i & a & b & c & d & Hp)].
      split; [exact Hb|]. exists i, a, b, c, d. kept Hp.
    + intros Hl. destruct (Hsug Hl) as (i & a & b & Hp).
      exists i, a, b. kept Hp.
  - (* generate *)
    inversion Hstep; subst; clear Hstep. unfold handleGenerate.
    destruct (characterImage st) as [ci|] eqn:Hci;
      [destruct (productImage st) as [pi|] eqn:Hpi|].
    + split; [|split].
      * intros i Hin. simpl in *. apply Hrange in Hin.
        rewrite length_app. simpl. lia.
      * intros _. split; [unfold hasBothImages; simpl; rewrite Hci, Hpi; reflexivity|].
        exists (length (calls st)), (file ci), (file pi), (prompt st),
          (outputAspectRatio st).
        eapply pending_new; [exact Hrange | reflexivity | reflexivity].
      * simpl. intros Hl. destruct (Hsug Hl) as (i & a & b & Hp).
        exists i, a, b. kept Hp.
    + split; [exact Hrange|]. split.
      * simpl. intros Hl. destruct (Hgen Hl) as [Hb _].
        unfold hasBothImages in Hb. rewrite Hci, Hpi in Hb. discriminate.
      * simpl. intros Hl. destruct (Hsug Hl) as (i & a & b & Hp).
        exists i, a, b. kept Hp.
    + split; [exact Hrange|]. split.
      * simpl. intros Hl. destruct (Hgen Hl) as [Hb _].
        unfold hasBothImages in Hb. rewrite Hci in Hb. discriminate.
      * simpl. intros Hl. destruct (Hsug Hl) as (i & a & b & Hp).
        exists i, a, b. kept Hp.
  - (* reset *)
    inversion Hstep; subst; clear Hstep. split; [exact Hrange|]. split.
    + simpl. discriminate.
    + simpl. intros Hl. destruct (Hsug Hl) as (i & a & b & Hp).
      exists i, a, b. kept Hp.
  - (* suggestions settled *)
    destruct (pending id st) as [[cf pf|? ? ? ?]|] eqn:Hid; try discriminate.
    inversion Hstep; subst; clear Hstep.
    destruct (pending_in_range _ _ _ Hid) as [Hlt _].
    assert (Hc : calls (fetchSuggestions_resume outcome (settle id st)) = calls st)
      by (destruct outcome; reflexivity).
    assert (Hs : settled (fetchSuggestions_resume outcome (settle id st))
                 = id :: settled st) by (destruct outcome; reflexivity).
    split; [|split].
    + intros i Hin. rewrite Hs in Hin. rewrite Hc.
      destruct Hin as [<- | Hin]; [exact Hlt | apply Hrange; exact Hin].
    + assert (Hl' : isLoading (fetchSuggestions_resume outcome (settle id st))
                    = isLoading st) by (destruct outcome; reflexivity).
      assert (Hb' : hasBothImages (fetchSuggestions_resume outcome (settle id st))
                    = hasBothImages st) by (destruct outcome; reflexivity).
      rewrite Hl', Hb'. intros Hl.
      destruct (Hgen Hl) as [Hb (i & a & b & c & d & Hp)].
      split; [exact Hb|]. exists i, a, b, c, d.
      eapply pending_kept_settle; [exact Hs | exact Hc | | exact Hp].
      intros ->. congruence.
    + destruct outcome; simpl; discriminate.
  - (* fused image settled *)
    destruct (pending id st) as [[? ?|cf pf pr ar]|] eqn:Hid; try discriminate.
    inversion Hstep; subst; clear Hstep.
    destruct (pending_in_range _ _ _ Hid) as [Hlt _].
    assert (Hc : calls (handleGenerate_resume outcome (settle id st)) = calls st).
    { unfold handleGenerate_resume. destruct outcome as [r|e]; [reflexivity|].
      destruct (str_eqb _ _); [|destruct (includes _ _)]; reflexivity. }
    assert (Hs : settled (handleGenerate_resume outcome (settle id st))
                 = id :: settled st).
    { unfold handleGenerate_resume. destruct outcome as [r|e]; [reflexivity|].
      destruct (str_eqb _ _); [|destruct (includes _ _)]; reflexivity. }
    split; [|split].
    + intros i Hin. rewrite Hs in Hin. rewrite Hc.
      destruct Hin as [<- | Hin]; [exact Hlt | apply Hrange; exact Hin].
    + unfold handleGenerate_resume. simpl. discriminate.
    + assert (Hl' : isSuggestionsLoading (handleGenerate_resume outcome (settle id st))
                    = isSuggestionsLoading st).
      { unfold handleGenerate_resume. destruct outcome as [r|e]; [reflexivity|].
        destruct (str_eqb _ _); [|destruct (includes _ _)]; reflexivity. }
      rewrite Hl'. intros Hl. destruct (Hsug Hl) as (i & a & b & Hp).
      exists i, a, b.
      eapply pending_kept_settle; [exact Hs | exact Hc | | exact Hp].
      intros ->. congruence.
Qed.

Lemma steps_keep_invariants (evs : list Event) :
  forall st st',
    settled_in_range st /\
    (isLoading st = true -> hasBothImages st = true /\ generation_pending st) /\
    (isSuggestionsLoading st = true -> suggestions_pending st) ->
    steps st evs = Some st' ->
    settled_in_range st' /\
    (isLoading st' = true -> hasBothImages st' = true /\ generation_pending st') /\
    (isSuggestionsLoading st' = true -> suggestions_pending st').
Proof.
  induction evs as [|ev rest IH]; intros st st' Hinv Hsteps; simpl in Hsteps.
  - inversion Hsteps; subst. exact Hinv.
  - destruct (step st ev) as [st1|] eqn:Hstep; [|discriminate].
    exact (IH st1 st' (step_keeps_invariants st st1 ev Hinv Hstep) Hsteps).
Qed.

Lemma reachable_invariants (st : State) :
  reachable st ->
  settled_in_range st /\
  (isLoading st = true -> hasBothImages st = true /\ generation_pending st) /\
  (isSuggestionsLoading st = true -> suggestions_pending st).
Proof.
  intros (evs & Hsteps). apply (steps_keep_invariants evs initial st); [|exact Hsteps].
  split; [intros id []|]. split; simpl; discriminate.
Qed.

End ComponentInvariants.

(* ================================================================== *)
(** ** The component and the service together *)
(* ================================================================== *)

Section Pipeline.
Import Js Json GeminiService App Properties Samples View Wire.

(** X14: in every reachable state in which [isLoading] is set, both images
    are present and a call of [generateFusedImage] is pending: the spinner
    never shows without a generation in flight. *)
Theorem spinner_has_a_pending_generation (st : State) :
  reachable st -> isLoading st = true ->
  hasBothImages st = true /\ generation_pending st.
Proof.
  intros Hreach. exact (proj1 (proj2 (reachable_invariants st Hreach))).
Qed.

Lemma spinner_has_a_pending_generation_witness :
  exists st, steps initial generating = Some st /\
             isLoading st = true /\ generation_pending st.
Proof.
  eexists. split; [reflexivity|]. split; [reflexivity|].
  match goal with
  | |- generation_pending ?s =>
      refine (proj2 (spinner_has_a_pending_generation s _ eq_refl))
  end.
  exists generating. reflexivity.
Defined.

(** X15: in every reachable state in which [isSuggestionsLoading] is set,
    a call of [generatePromptSuggestions] is pending. *)
Theorem suggestions_loading_has_a_pending_fetch (st : State) :
  reachable st -> isSuggestionsLoading st = true -> suggestions_pending st.
Proof.
  intros Hreach. exact (proj2 (proj2 (reachable_invariants st Hreach))).
Qed.

Lemma suggestions_loading_has_a_pending_fetch_witness :
  exists st, steps initial hero_then_knight = Some st /\
             isSuggestionsLoading st = true /\ suggestions_pending st.
Proof.
  eexists. split; [reflexivity|]. split; [reflexivity|].
  match goal with
  | |- suggestions_pending ?s =>
      refine (suggestions_loading_has_a_pending_fetch s _ eq_refl)
  end.
  exists hero_then_knight. reflexivity.
Defined.

(** A click with both images present, then the settlement of its call. *)
Lemma generate_then_settle (st : State) (ci pi : ImageFile)
    (outcome : Completion js_string) :
  reachable st ->
  characterImage st = Some ci -> productImage st = Some pi ->
  steps st [GenerateClick; FusedImageSettled (length (calls st)) outcome] =
  Some (handleGenerate_resume outcome
          (settle (length (calls st))
             (call (FusedImageCall (file ci) (file pi) (prompt st)
                                   (outputAspectRatio st))
                (setIsLoading true
                   (setGeneratedImage None (setError None st)))))).
Proof.
  intros Hreach Hci Hpi.
  destruct (reachable_invariants st Hreach) as (Hrange & _).
  assert (Hh : handleGenerate st =
               call (FusedImageCall (file ci) (file pi) (prompt st)
                                    (outputAspectRatio st))
                 (setIsLoading true (setGeneratedImage None (setError None st))))
    by (unfold handleGenerate; rewrite Hci, Hpi; reflexivity).
  assert (Hp : pending (length (calls st)) (handleGenerate st) =
               Some (FusedImageCall (file ci) (file pi) (prompt st)
                                    (outputAspectRatio st))).
  { apply pending_new; [exact Hrange | |]; rewrite Hh; reflexivity. }
  cbn [steps step]. rewrite Hp, Hh. reflexivity.
Qed.

(** X16: a generation whose response carries a block indicator ends with
    the Content Policy Violation error shown, no image, and the spinner
    gone. *)
Theorem blocked_generation_shows_policy_violation
    (w : World) (st : State) (ci pi : ImageFile) (rc rp : js_string)
    (response : GenerateContentResponse) :
  reachable st ->
  characterImage st = Some ci -> productImage st = Some pi ->
  reads_succeed w (file ci) (file pi) rc rp ->
  generateContent w
    (fusion_request (file ci) (file pi) (base64_of rc) (base64_of rp) (prompt st))
    = Normal response ->
  block_indicator response ->
  exists st',
    steps st (generation w st ci pi) = Some st' /\
    error st' = Some policy_violation /\ generatedImage st' = None /\
    isLoading st' = false /\ shows_error st' = true /\ shows_image st' = false.
Proof.
  intros Hreach Hci Hpi Hreads Hg Hblock. unfold generation.
  pose proof (generate_then_settle st ci pi
              (fst (run (invoke_generateFusedImage w (file ci) (file pi)
                           (prompt st) (outputAspectRatio st))))
              Hreach Hci Hpi) as Hsteps.
  eexists. split; [exact Hsteps|].
  unfold invoke_generateFusedImage.
  rewrite (generateFusedImage_run w _ _ rc rp Hreads). simpl fst.
  rewrite Hg, (is_blocked_true _ Hblock).
  unfold handleGenerate_resume, shows_error, shows_image. simpl.
  repeat split.
Qed.

Lemma blocked_generation_shows_policy_violation_witness :
  exists st,
    steps both_uploaded
          (generation (world key (answers blocked_with_image)) both_uploaded
                      (image hero) (image mug)) = Some st /\
    error st = Some policy_violation /\ generatedImage st = None.
Proof.
  destruct (blocked_generation_shows_policy_violation
              (world key (answers blocked_with_image)) both_uploaded
              (image hero) (image mug)
              (lit "data:image/png;base64,hero.png")
              (lit "data:image/jpeg;base64,mug.jpg")
              blocked_with_image)
    as (st' & Hsteps & Herr & Hgi & _).
  - exists [ImageUpload CharacterSlot (image hero);
            ImageUpload ProductSlot (image mug)]. reflexivity.
  - reflexivity.
  - reflexivity.
  - repeat split; reflexivity.
  - reflexivity.
  - left. eexists. eexists. split; reflexivity.
  - exists st'. auto.
Defined.

(** X17: a generation whose response has no block indicator and no inline
    data ends with the Image Generation Unsuccessful error shown and no
    image. *)
Theorem empty_generation_shows_unsuccessful
    (w : World) (st : State) (ci pi : ImageFile) (rc rp : js_string)
    (response : GenerateContentResponse) :
  reachable st ->
  characterImage st = Some ci -> productImage st = Some pi ->
  reads_succeed w (file ci) (file pi) rc rp ->
  generateContent w
    (fusion_request (file ci) (file pi) (base64_of rc) (base64_of rp) (prompt st))
    = Normal response ->
  no_block_indicators response ->
  Forall no_inline_data (response_parts response) ->
  exists st',
    steps st (generation w st ci pi) = Some st' /\
    error st' = Some generation_unsuccessful /\ generatedImage st' = None /\
    isLoading st' = false /\ shows_error st' = true /\ shows_image st' = false.
Proof.
  intros Hreach Hci Hpi Hreads Hg Hfree Hnone. unfold generation.
  pose proof (generate_then_settle st ci pi
              (fst (run (invoke_generateFusedImage w (file ci) (file pi)
                           (prompt st) (outputAspectRatio st))))
              Hreach Hci Hpi) as Hsteps.
  eexists. split; [exact Hsteps|].
  unfold invoke_generateFusedImage.
  rewrite (generateFusedImage_run w _ _ rc rp Hreads). simpl fst.
  rewrite Hg, (is_blocked_false _ Hfree), (scan_parts_none _ Hnone).
  unfold handleGenerate_resume, shows_error, shows_image.
  change (str_eqb (errorMessage no_image_error) (lit "SAFETY_POLICY_VIOLATION"))
    with false.
  change (includes (errorMessage no_image_error) (lit "No image was generated"))
    with true.
  simpl. repeat split.
Qed.

Lemma empty_generation_shows_unsuccessful_witness :
  exists st,
    steps both_uploaded
          (generation (world key (answers only_text)) both_uploaded
                      (image hero) (image mug)) = Some st /\
    error st = Some generation_unsuccessful /\ generatedImage st = None.
Proof.
  destruct (empty_generation_shows_unsuccessful
              (world key (answers only_text)) both_uploaded
              (image hero) (image mug)
              (lit "data:image/png;base64,hero.png")
              (lit "data:image/jpeg;base64,mug.jpg")
              only_text)
    as (st' & Hsteps & Herr & Hgi & _).
  - exists [ImageUpload CharacterSlot (image hero);
            ImageUpload ProductSlot (image mug)]. reflexivity.
  - reflexivity.
  - reflexivity.
  - repeat split; reflexivity.
  - reflexivity.
  - split; [intros pf E; discriminate|].
    intros cand E. inversion E; subst. simpl. discriminate.
  - simpl. repeat constructor.
  - exists st'. auto.
Defined.

(** X18: a generation attempted without an API key, or with an image the
    reader cannot load, ends with the generic Something Went Wrong error:
    the component does not tell these failures apart. *)
Theorem early_failure_shows_generic_error
    (w : World) (st : State) (ci pi : ImageFile) :
  reachable st ->
  characterImage st = Some ci -> productImage st = Some pi ->
  truthy_opt_string (API_KEY w) = false \/
  readAsDataURL w (file ci) = Throw ErrorEvent \/
  (exists rc, readAsDataURL w (file ci) = Normal rc /\
              readAsDataURL w (file pi) = Throw ErrorEvent) ->
  exists st',
    steps st (generation w st ci pi) = Some st' /\
    error st' = Some something_went_wrong /\ generatedImage st' = None /\
    isLoading st' = false.
Proof.
  intros Hreach Hci Hpi Hfail. unfold generation.
  pose proof (generate_then_settle st ci pi
              (fst (run (invoke_generateFusedImage w (file ci) (file pi)
                           (prompt st) (outputAspectRatio st))))
              Hreach Hci Hpi) as Hsteps.
  eexists. split; [exact Hsteps|].
  unfold invoke_generateFusedImage. rewrite generateFusedImage_paths.
  destruct (truthy_opt_string (API_KEY w)) eqn:Hkey.
  - destruct Hfail as [H | [H | (rc & H1 & H2)]]; [discriminate | |].
    + rewrite H. simpl. repeat split.
    + rewrite H1, H2. simpl. repeat split.
  - unfold handleGenerate_resume.
    change (str_eqb (errorMessage API_KEY_error) (lit "SAFETY_POLICY_VIOLATION"))
      with false.
    change (includes (errorMessage API_KEY_error) (lit "No image was generated"))
      with false.
    simpl. repeat split.
Qed.

Lemma early_failure_shows_generic_error_witness :
  exists st,
    steps both_uploaded
          (generation (world None (answers two_images)) both_uploaded
                      (image hero) (image mug)) = Some st /\
    error st = Some something_went_wrong.
Proof.
  destruct (early_failure_shows_generic_error
              (world None (answers two_images)) both_uploaded
              (image hero) (image mug))
    as (st' & Hsteps & Herr & _).
  - exists [ImageUpload CharacterSlot (image hero);
            ImageUpload ProductSlot (image mug)]. reflexivity.
  - reflexivity.
  - reflexivity.
  - left. reflexivity.
  - exists st'. auto.
Defined.

(** X19: a generation whose response has no block indicator and a part
    with inline data ends with a data URL stored as the generated image
    and shown, and no error. *)
Theorem successful_generation_shows_the_image
    (w : World) (st : State) (ci pi : ImageFile) (rc rp : js_string)
    (response : GenerateContentResponse) :
  reachable st ->
  characterImage st = Some ci -> productImage st = Some pi ->
  reads_succeed w (file ci) (file pi) rc rp ->
  generateContent w
    (fusion_request (file ci) (file pi) (base64_of rc) (base64_of rp) (prompt st))
    = Normal response ->
  no_block_indicators response ->
  Exists has_inline_data (response_parts response) ->
  exists st' url,
    steps st (generation w st ci pi) = Some st' /\
    generatedImage st' = Some url /\ startsWith url (lit "data:") = true /\
    error st' = None /\ isLoading st' = false /\
    shows_image st' = true /\ shows_error st' = false /\
    shows_spinner st' = false /\ shows_placeholder st' = false.
Proof.
  intros Hreach Hci Hpi Hreads Hg Hfree Hsome. unfold generation.
  pose proof (generate_then_settle st ci pi
              (fst (run (invoke_generateFusedImage w (file ci) (file pi)
                           (prompt st) (outputAspectRatio st))))
              Hreach Hci Hpi) as Hsteps.
  destruct (first_inline_part _ Hsome) as (pre & part & post & b & Hps & Hpre & Hb).
  eexists. exists (data_url b).
  split.
  - rewrite Hsteps. unfold invoke_generateFusedImage.
    rewrite (generateFusedImage_run w _ _ rc rp Hreads). simpl fst.
    rewrite Hg, (is_blocked_false _ Hfree), Hps.
    rewrite (scan_parts_first pre post part b Hpre Hb). reflexivity.
  - repeat split;
      first [ unfold data_url; apply startsWith_app | reflexivity ].
Qed.

Lemma successful_generation_shows_the_image_witness :
  exists st,
    steps both_uploaded
          (generation (world key (answers two_images)) both_uploaded
                      (image hero) (image mug)) = Some st /\
    error st = None /\ shows_image st = true.
Proof.
  destruct (successful_generation_shows_the_image
              (world key (answers two_images)) both_uploaded
              (image hero) (image mug)
              (lit "data:image/png;base64,hero.png")
              (lit "data:image/jpeg;base64,mug.jpg")
              two_images)
    as (st' & url & Hsteps & _ & _ & Herr & _ & Hshow & _).
  - exists [ImageUpload CharacterSlot (image hero);
            ImageUpload ProductSlot (image mug)]. reflexivity.
  - reflexivity.
  - reflexivity.
  - repeat split; reflexivity.
  - reflexivity.
  - split; [intros pf E; discriminate|].
    intros cand E. inversion E; subst. simpl. discriminate.
  - simpl. apply Exists_cons_tl, Exists_cons_hd. unfold has_inline_data.
    simpl. discriminate.
  - exists st'. auto.
Defined.

End Pipeline.

(* ================================================================== *)
(** ** Reset, the Generate button and the uploaders *)
(* ================================================================== *)

Section Controls.
Import Js Json GeminiService App Properties Samples View Wire ImageUploader.

(** X20: a reset does not cancel a generation in flight: when the pending
    call resolves after the reset, its image is stored and shown although
    both images, the prompt and the error have been cleared. *)
Theorem reset_does_not_cancel_generation
    (st : State) (id : nat) (cf pf : File) (pr ar url : js_string) :
  pending id st = Some (FusedImageCall cf pf pr ar) ->
  exists st',
    steps st [ResetClick; FusedImageSettled id (Normal url)] = Some st' /\
    generatedImage st' = Some url /\
    characterImage st' = None /\ productImage st' = None /\
    prompt st' = [] /\ error st' = None /\ isLoading st' = false /\
    shows_image st' = truthy_string url.
Proof.
  intros Hp.
  assert (Hp' : pending id (handleReset st) = Some (FusedImageCall cf pf pr ar))
    by exact Hp.
  eexists. cbn [steps step]. rewrite Hp'. split; [reflexivity|].
  unfold shows_image. simpl. rewrite andb_true_r. repeat split.
Qed.

Lemma reset_does_not_cancel_generation_witness :
  exists st st',
    steps initial generating = Some st /\
    steps st [ResetClick;
              FusedImageSettled 1 (Normal (lit "data:image/png;base64,iVBORw0KGgo="))]
      = Some st' /\
    characterImage st' = None /\
    generatedImage st' = Some (lit "data:image/png;base64,iVBORw0KGgo=").
Proof.
  eexists.
  destruct (reset_does_not_cancel_generation
              (handleGenerate both_uploaded) 1 hero mug [] (lit "original")
              (lit "data:image/png;base64,iVBORw0KGgo=") eq_refl)
    as (st' & Hsteps & Hgi & Hci & _).
  exists st'. split; [reflexivity|]. split; [exact Hsteps|].
  split; [exact Hci | exact Hgi].
Defined.

(** X21: when the Generate button is enabled, its click makes exactly one
    call of [generateFusedImage], with the files of both images, the
    prompt and the selected ratio, and leaves the button disabled: the
    button cannot submit a second generation while the first is loading. *)
Theorem enabled_button_submits_once (st : State) :
  isButtonDisabled st = false ->
  exists ci pi st',
    characterImage st = Some ci /\ productImage st = Some pi /\
    steps st (generate_button st) = Some st' /\
    calls st' = calls st ++ [FusedImageCall (file ci) (file pi) (prompt st)
                                            (outputAspectRatio st)] /\
    error st' = None /\ isLoading st' = true /\
    isButtonDisabled st' = true /\ generate_button st' = [].
Proof.
  unfold generate_button. intros Hen. rewrite Hen.
  unfold isButtonDisabled in Hen.
  destruct (characterImage st) as [ci|] eqn:Hci; [|discriminate].
  destruct (productImage st) as [pi|] eqn:Hpi; [|discriminate].
  exists ci, pi.
  exists (call (FusedImageCall (file ci) (file pi) (prompt st)
                               (outputAspectRatio st))
            (setIsLoading true (setGeneratedImage None (setError None st)))).
  split; [reflexivity|]. split; [reflexivity|]. split.
  { cbn [steps step]. unfold handleGenerate. rewrite Hci, Hpi. reflexivity. }
  split; [reflexivity|]. split; [reflexivity|]. split; [reflexivity|].
  unfold isButtonDisabled. simpl. rewrite orb_true_r. split; reflexivity.
Qed.

Lemma enabled_button_submits_once_witness :
  exists st,
    steps both_uploaded (generate_button both_uploaded) = Some st /\
    calls st = [SuggestionsCall hero mug;
                FusedImageCall hero mug [] (lit "original")] /\
    generate_button st = [].
Proof.
  destruct (enabled_button_submits_once both_uploaded eq_refl)
    as (ci & pi & st' & Hci & Hpi & Hsteps & Hcalls & _ & _ & _ & Hb).
  exists st'. split; [exact Hsteps|]. split; [|exact Hb].
  rewrite Hcalls. inversion Hci; inversion Hpi; subst. reflexivity.
Defined.

(** X22: a drop passes a file on exactly when the first dropped file has
    a type starting with image/ (later files are not looked at); the file
    input passes its first file on whatever its type.  What is passed on
    is that file with the object URL made for it. *)
Theorem uploaders_pass_the_first_file
    (createObjectURL : File -> js_string) (files : option (list File))
    (imageFile : ImageFile) :
  (handleDrop createObjectURL files = Some imageFile <->
   exists f rest,
     files = Some (f :: rest) /\ startsWith (type f) (lit "image/") = true /\
     imageFile = {| file := f; previewUrl := createObjectURL f |}) /\
  (handleFileChange createObjectURL files = Some imageFile <->
   exists f rest,
     files = Some (f :: rest) /\
     imageFile = {| file := f; previewUrl := createObjectURL f |}).
Proof.
  unfold handleDrop, handleFileChange, first_file.
  destruct files as [[|f rest]|]; simpl.
  - split; split; try discriminate; intros (f & rest & E & _); discriminate.
  - split; split.
    + destruct (startsWith (type f) (lit "image/")) eqn:E; [|discriminate].
      intros H; inversion H; subst. exists f, rest. auto.
    + intros (f' & rest' & E & Ht & ->). inversion E; subst.
      rewrite Ht. reflexivity.
    + intros H; inversion H; subst. exists f, rest. auto.
    + intros (f' & rest' & E & ->). inversion E; subst. reflexivity.
  - split; split; try discriminate; intros (f & rest & E & _); discriminate.
Qed.

(** X23: a drop whose first file is not an image changes nothing in the
    component, even when a later file is an image; the same files chosen
    through the file input upload that first file as the image of the
    slot. *)
Theorem non_image_drop_is_ignored
    (createObjectURL : File -> js_string) (slot : Slot) (st : State)
    (f : File) (rest : list File) :
  startsWith (type f) (lit "image/") = false ->
  steps st (onImageUpload slot (handleDrop createObjectURL (Some (f :: rest))))
    = Some st /\
  steps st (onImageUpload slot
              (handleFileChange createObjectURL (Some (f :: rest))))
    = step st (ImageUpload slot {| file := f; previewUrl := createObjectURL f |}).
Proof.
  intros Ht. unfold handleDrop, handleFileChange, first_file. simpl.
  rewrite Ht. split; [reflexivity|].
  destruct slot; reflexivity.
Qed.

Lemma non_image_drop_is_ignored_witness :
  steps initial
        (onImageUpload CharacterSlot (handleDrop blob_url (Some [notes; hero])))
    = Some initial /\
  exists st,
    steps initial
          (onImageUpload CharacterSlot
             (handleFileChange blob_url (Some [notes; hero]))) = Some st /\
    characterImage st = Some {| file := notes; previewUrl := lit "blob:notes.pdf" |}.
Proof.
  destruct (non_image_drop_is_ignored blob_url CharacterSlot initial notes [hero]
              eq_refl) as [H1 H2].
  split; [exact H1|]. eexists. split; [rewrite H2; reflexivity | reflexivity].
Defined.

End Controls.
